(** * safe-typed-html: the element builder and serializer of [src/elements.tsx]

    A shallow embedding of the module in Rocq.  JavaScript strings are
    sequences of UTF-16 code units, objects with identity (TextNode,
    RenderNode, attributes objects and arrays) live in a store addressed
    by location, and [createElement] is a computation over that store. *)

From Stdlib Require Import String Ascii NArith ZArith List Bool Lia.
From stdpp Require Import base tactics option list.

Open Scope N_scope.
Open Scope list_scope.

(** ** Strings *)

(** A JavaScript string: its UTF-16 code units. *)
Abbreviation jsstring := (list N).

(** A literal of the source, written as a Rocq string. *)
Definition js (s : string) : jsstring :=
  map N_of_ascii (list_ascii_of_string s).

(** The double quote, which the literals above never contain. *)
Definition dquote : N := 34.

(** [Array.prototype.join]. *)
Fixpoint join (sep : jsstring) (parts : list jsstring) : jsstring :=
  match parts with
  | [] => []
  | [p] => p
  | p :: rest => p ++ sep ++ join sep rest
  end.

(** [s.replace(/c/g, replacement)] for a pattern [c] of one literal code
    unit and a replacement string without [$] patterns: every occurrence
    of [c] in [s] is replaced, the scan resuming after the match in [s]. *)
Definition replaceAll (c : N) (replacement : jsstring) (s : jsstring) : jsstring :=
  flat_map (fun u => if u =? c then replacement else [u]) s.

(** ** Name transformer *)

Definition capitalACharCode : N := 65.
Definition capitalZCharCode : N := 90.

(** [input.charCodeAt(index)]; [None] stands for NaN (index out of range). *)
Definition charCodeAt (input : jsstring) (index : nat) : option N :=
  input !! index.

Definition isUpper (input : jsstring) (index : nat) : bool :=
  match charCodeAt input index with
  | Some charCode => (capitalACharCode <=? charCode) && (charCode <=? capitalZCharCode)
  | None => false
  end.

(** [toLowerCase] on a one-unit string.  The source applies it only to a
    unit for which [isUpper] holds, where it adds 32; other units are
    returned as they are. *)
Definition toLowerCase (c : N) : N :=
  if (capitalACharCode <=? c) && (c <=? capitalZCharCode) then c + 32 else c.

Definition hyphen : N := 45.

(** One iteration of the loop of [toKebabCase], at index [i]. *)
Definition toKebabCase_step (camelCased : jsstring) (kebabCased : jsstring) (i : nat)
  : jsstring :=
  let prevUpperCased := if (0 <? i)%nat then isUpper camelCased (i - 1) else true in
  let currentUpperCased := isUpper camelCased i in
  let nextUpperCased :=
    if (i <? length camelCased - 1)%nat then isUpper camelCased (i + 1) else true in
  match camelCased !! i with
  | Some c =>
      if (negb prevUpperCased && currentUpperCased)
         || (currentUpperCased && negb nextUpperCased)
      then (kebabCased ++ [hyphen]) ++ [toLowerCase c]
      else kebabCased ++ [c]
  | None => kebabCased
  end.

Definition toKebabCase (camelCased : jsstring) : jsstring :=
  fold_left (toKebabCase_step camelCased) (seq 0 (length camelCased)) [].

(** ** Escaper *)

Definition ampersand : N := 38.
Definition lessThan : N := 60.
Definition greaterThan : N := 62.
Definition nbsp : N := 160.

(** A capture group of a regular expression match: [None] is [undefined]
    (the group did not take part in the match). *)
Definition capture := option jsstring.

Definition capture_truthy (g : capture) : bool :=
  match g with
  | Some (_ :: _) => true
  | _ => false
  end.

(** The pattern of [escapeAttrNodeValue], an alternation of three
    one-unit groups (ampersand, double quote, U+00A0), tried at one code
    unit: the alternatives in order, each with its own capture group.
    [None]: no match at this unit. *)
Definition attrPattern_match (u : N) : option (capture * capture * capture) :=
  if u =? ampersand then Some (Some [u], None, None)
  else if u =? dquote then Some (None, Some [u], None)
  else if u =? nbsp then Some (None, None, Some [u])
  else None.

(** The replacer callback [function (_, amp, quote)]. *)
Definition attrReplacer (amp quote : capture) : jsstring :=
  if capture_truthy amp then js "&amp;"
  else if capture_truthy quote then js "&quot;"
  else js "&nbsp;".

(** [value.replace(pattern, replacer)] with the global flag: the matches
    are found left to right in [value], each replaced by what the callback
    returns, and the units between them copied. *)
Definition escapeAttrNodeValue (value : jsstring) : jsstring :=
  flat_map (fun u =>
              match attrPattern_match u with
              | Some (amp, quote, _) => attrReplacer amp quote
              | None => [u]
              end) value.

(** The chain of four replacements that [flattenContents] applies to a
    stringified content value. *)
Definition escapeContent (text : jsstring) : jsstring :=
  replaceAll dquote (js "&quot;")
    (replaceAll greaterThan (js "&gt;")
       (replaceAll lessThan (js "&lt;")
          (replaceAll ampersand (js "&amp;") text))).

(** ** Values and the store *)

(** An object reference. *)
Abbreviation loc := nat.

(** A [Date], as far as this module observes it: the text of
    [toISOString()] and the text of its string conversion. *)
Record Date := { toISOString : jsstring; Date_toString : jsstring }.

(** [AttributeValue = number | string | Date | boolean], and the two
    nullish values that [attributeToString] provides for.  A number is
    carried as the text of its string conversion, the only thing this
    module does with a number besides testing it for truth. *)
Inductive AttributeValue :=
| ANumber (text : jsstring)
| AString (s : jsstring)
| ADate (d : Date)
| ABoolean (b : bool)
| AUndefined
| ANull.

(** The own properties of an attributes object, in the order in which
    [Object.keys] reports them. *)
Abbreviation Attributes := (list (jsstring * AttributeValue)).

(** [ContentType = JSX.IRenderNode | string]: an element of [children]. *)
Inductive ContentType :=
| CNode (l : loc)
| CString (s : jsstring).

(** A primitive value passed as content. *)
Inductive Primitive :=
| PUndefined
| PNull
| PBoolean (b : bool)
| PNumber (text : jsstring)
| PString (s : jsstring).

(** A value as an array holds it: a reference to an object, or a
    primitive. *)
Inductive Value :=
| VObject (l : loc)
| VPrimitive (p : Primitive).

(** A raw content argument: a reference to an object that is not an
    array, an array, or a primitive.  An array is an object of the store
    like any other; [Arr l items] is the array at [l] together with the
    contents that its elements are, so that the nesting of arrays is at
    hand as a finite tree.  The flattener reads the array in the store and
    goes on only when its elements there are the ones stated. *)
#[warnings="-register-all"]
Inductive Content :=
| Ref (l : loc)
| Arr (l : loc) (items : list Content)
| Prim (p : Primitive).

(** The value that stands for a content in the array that holds it. *)
Definition shallow (content : Content) : Value :=
  match content with
  | Ref l => VObject l
  | Arr l _ => VObject l
  | Prim p => VPrimitive p
  end.

Inductive object :=
| TextNode (contents : jsstring)
| RenderNode (tagName : jsstring) (attributes : option loc) (children : list ContentType)
| AttributesObject (props : Attributes)
| ArrayObject (elements : list Value).

#[global] Instance Primitive_eq_dec : EqDecision Primitive.
Proof. solve_decision. Defined.

#[global] Instance Value_eq_dec : EqDecision Value.
Proof. solve_decision. Defined.

(** The store: the object at location [l] is the [l]-th element; a new
    object is allocated at the end. *)
Abbreviation store := (list object).

(** ** Computations over the store *)

(** [None]: the call returns no value.  Either the source throws at this
    point (the TypeError of a value that has no string conversion), or the
    input is none that the source can be given (a reference that holds no
    object, an array with other elements than the ones stated). *)
Definition M (A : Type) : Type := store -> option (A * store).

(** The source throws. *)
Definition throw {A} : M A := fun _ => None.

(** The input is none of the source. *)
Definition noInput {A} : M A := fun _ => None.

Definition ret {A} (a : A) : M A := fun σ => Some (a, σ).

Definition bind {A B} (m : M A) (k : A -> M B) : M B :=
  fun σ => match m σ with
           | Some (a, σ') => k a σ'
           | None => None
           end.

Notation "'let*' x ':=' m 'in' k" := (bind m (fun x => k))
  (at level 10, x name, m at level 100, k at level 200).

Definition getObject (l : loc) : M object :=
  fun σ => match σ !! l with
           | Some o => Some (o, σ)
           | None => None
           end.

(** [new C(...)]: the new object gets the next free location. *)
Definition alloc (o : object) : M loc :=
  fun σ => Some (length σ, σ ++ [o]).

Definition getAttributes (a : loc) : M Attributes :=
  let* o := getObject a in
  match o with
  | AttributesObject props => ret props
  | _ => noInput
  end.

Definition setAttributes (a : loc) (props : Attributes) : M unit :=
  let* _ := getAttributes a in
  fun σ => Some (tt, <[a := AttributesObject props]> σ).

(** ** Property access *)

(** [attributes[name]]: [undefined] when there is no such property. *)
Fixpoint getProperty (attributes : Attributes) (name : jsstring) : AttributeValue :=
  match attributes with
  | [] => AUndefined
  | (k, v) :: rest => if bool_decide (k = name) then v else getProperty rest name
  end.

(** What [delete attributes[name]] leaves. *)
Definition deleteProperty (attributes : Attributes) (name : jsstring) : Attributes :=
  List.filter (fun kv => negb (bool_decide (fst kv = name))) attributes.

(** [Object.keys(attributes)]. *)
Definition keys (attributes : Attributes) : list jsstring := map fst attributes.

(** ** Conversions *)

Definition Boolean_toString (b : bool) : jsstring :=
  if b then js "true" else js "false".

(** Truth of a value in a condition.  The numbers that are false are
    0, -0 and NaN, whose texts are 0 and NaN. *)
Definition truthy (v : AttributeValue) : bool :=
  match v with
  | ANumber text => negb (bool_decide (text = js "0") || bool_decide (text = js "NaN"))
  | AString s => negb (bool_decide (s = []))
  | ADate _ => true
  | ABoolean b => b
  | AUndefined => false
  | ANull => false
  end.

(** ['' + value] for an attribute value. *)
Definition concatString (v : AttributeValue) : jsstring :=
  match v with
  | ANumber text => text
  | AString s => s
  | ADate d => Date_toString d
  | ABoolean b => Boolean_toString b
  | AUndefined => js "undefined"
  | ANull => js "null"
  end.

(** [value?.toString() ?? ''] *)
Definition toStringOrEmpty (v : AttributeValue) : jsstring :=
  match v with
  | ANumber text => text
  | AString s => s
  | ADate d => Date_toString d
  | ABoolean b => Boolean_toString b
  | AUndefined => []
  | ANull => []
  end.

(** ['' + content] for a primitive. *)
Definition Primitive_toString (p : Primitive) : jsstring :=
  match p with
  | PUndefined => js "undefined"
  | PNull => js "null"
  | PBoolean b => Boolean_toString b
  | PNumber text => text
  | PString s => s
  end.

(** [Object.prototype.toString] on a plain object. *)
Definition Object_toString : jsstring := js "[object Object]".

(** The attributes object has an own property [toString].  Its value is
    an [AttributeValue], which is no function, and it hides the inherited
    method: converting the object to a string, or calling its [toString],
    throws a TypeError. *)
Definition ownToString (props : Attributes) : bool :=
  existsb (fun kv => bool_decide (fst kv = js "toString")) props.

(** The string conversion of an attributes object, by ['' + object] or by
    [object.toString()]: the text of the inherited method, unless an own
    property hides that method. *)
Definition AttributesObject_toString (props : Attributes) : option jsstring :=
  if ownToString props then None else Some Object_toString.

(** ** Attributes to text *)

Definition attributeToString (attributes : Attributes) (name : jsstring) : jsstring :=
  let value := getProperty attributes name in
  let formattedName := toKebabCase name in
  let makeAttribute (value : jsstring) :=
    formattedName ++ js "=" ++ [dquote] ++ value ++ [dquote] in
  match value with
  | ADate d => makeAttribute (toISOString d)
  | ABoolean b => if b then formattedName else []
  | _ => makeAttribute (escapeAttrNodeValue (toStringOrEmpty value))
  end.

(** [attribute => attribute.length] as a filter predicate. *)
Definition nonEmpty (attribute : jsstring) : bool := (0 <? length attribute)%nat.

Definition attributesToString (σ : store) (attributes : option loc) : option jsstring :=
  match attributes with
  | Some a =>
      match σ !! a with
      | Some (AttributesObject props) =>
          Some (js " " ++ join (js " ")
                            (List.filter nonEmpty (map (attributeToString props) (keys props))))
      | _ => None
      end
  | None => Some []
  end.

(** ** Content flattener *)

(** [content instanceof RenderNode || content instanceof TextNode] *)
Definition instanceofNode (o : object) : bool :=
  match o with
  | TextNode _ => true
  | RenderNode _ _ _ => true
  | AttributesObject _ => false
  | ArrayObject _ => false
  end.

(** [Array.isArray(content)] *)
Definition isArray (o : object) : bool :=
  match o with
  | ArrayObject _ => true
  | _ => false
  end.

(** ['' + content] for an object that is neither a node nor an array. *)
Definition concatObject (o : object) : M jsstring :=
  match o with
  | AttributesObject props =>
      match AttributesObject_toString props with
      | Some text => ret text
      | None => throw
      end
  | _ => noInput
  end.

(** The elements of the array [o] are the ones stated. *)
Definition elementsAre (o : object) (items : list Content) : M unit :=
  match o with
  | ArrayObject elements =>
      if bool_decide (elements = map shallow items) then ret tt else noInput
  | _ => noInput
  end.

(** [for (const content of contents) results.push(...body(content))] *)
Definition forEachPush {A B} (body : A -> M (list B)) : list A -> M (list B) :=
  fix loop (contents : list A) : M (list B) :=
    match contents with
    | [] => ret []
    | content :: rest =>
        let* pushed := body content in
        let* results := loop rest in
        ret (pushed ++ results)
    end.

(** The body of the loop of [flattenContents]: what one [content] adds
    to [results]. *)
Fixpoint flattenContents_body (content : Content) : M (list ContentType) :=
  match content with
  | Ref l =>
      let* o := getObject l in
      if instanceofNode o then ret [CNode l]
      else if isArray o then noInput
      else
        let* text := concatObject o in
        ret [CString (escapeContent text)]
  | Arr l items =>
      let* o := getObject l in
      if instanceofNode o then ret [CNode l]
      else if isArray o then
        let* _ := elementsAre o items in
        forEachPush flattenContents_body items
      else
        let* text := concatObject o in
        ret [CString (escapeContent text)]
  | Prim p => ret [CString (escapeContent (Primitive_toString p))]
  end.

Definition flattenContents (contents : list Content) : M (list ContentType) :=
  forEachPush flattenContents_body contents.

(** ** Rendering *)

(** [list.indexOf(x)] *)
Fixpoint indexOf (l : list jsstring) (x : jsstring) : Z :=
  match l with
  | [] => (-1)%Z
  | y :: rest =>
      if bool_decide (y = x) then 0%Z
      else let i := indexOf rest x in
           if (i <? 0)%Z then (-1)%Z else (i + 1)%Z
  end.

Definition voidElements : list jsstring :=
  map js [ "area"; "base"; "br"; "col"; "command"; "embed"; "hr"; "img"; "input";
           "keygen"; "link"; "meta"; "param"; "source"; "track"; "wbr" ]%string.

Definition isVoidElement (tagName : jsstring) : bool :=
  (-1 <? indexOf voidElements tagName)%Z.

Definition TextNode_toString (contents : jsstring) : jsstring := contents.

(** [RenderNode.prototype.toString], the [toString] of a child node given
    as [child_toString]. *)
Definition RenderNode_toString (σ : store) (child_toString : loc -> option jsstring)
    (tagName : jsstring) (attributes : option loc) (children : list ContentType)
  : option jsstring :=
  if isVoidElement tagName && negb (0 <? length children)%nat then
    attrs ← attributesToString σ attributes;
    Some (js "<" ++ tagName ++ attrs ++ js ">")
  else
    contents ← (if (0 <? length children)%nat
                then join [] <$> mapM (fun child =>
                                         match child with
                                         | CString s => Some s
                                         | CNode l => child_toString l
                                         end) children
                else Some []);
    attrs ← attributesToString σ attributes;
    Some (js "<" ++ tagName ++ attrs ++ js ">" ++ contents ++ js "</" ++ tagName ++ js ">").

(** The text of an array element in [Array.prototype.join]: empty for
    undefined and null, the string conversion otherwise. *)
Definition elementText (object_toString : loc -> option jsstring) (v : Value)
  : option jsstring :=
  match v with
  | VPrimitive PUndefined => Some []
  | VPrimitive PNull => Some []
  | VPrimitive p => Some (Primitive_toString p)
  | VObject l => object_toString l
  end.

(** [child.toString()], by the class of the object at [l]: the method of
    TextNode or of RenderNode, the inherited method of a plain object, and
    for an array the join of its elements with a comma.  [fuel] bounds the
    depth of the tree rendered. *)
Fixpoint toString (fuel : nat) (σ : store) (l : loc) : option jsstring :=
  match fuel with
  | O => None
  | S fuel' =>
      match σ !! l with
      | Some (TextNode contents) => Some (TextNode_toString contents)
      | Some (RenderNode tagName attributes children) =>
          RenderNode_toString σ (toString fuel' σ) tagName attributes children
      | Some (AttributesObject props) => AttributesObject_toString props
      | Some (ArrayObject elements) =>
          join (js ",") <$> mapM (elementText (toString fuel' σ)) elements
      | None => None
      end
  end.

(** ** Tree builder *)

(** [(attributes, contents) => RenderNode]: any computation over the store. *)
Definition CustomElementHandler := option loc -> list ContentType -> M loc.

(** [name: string | CustomElementHandler] *)
Inductive ElementName :=
| TagName (name : jsstring)
| Handler (name : CustomElementHandler).

Definition dangerousInnerHtml : jsstring := js "dangerousInnerHtml".

(** [attributes[name]] on the object at [a]. *)
Definition readProperty (a : loc) (name : jsstring) : M AttributeValue :=
  let* props := getAttributes a in
  ret (getProperty props name).

(** [delete attributes[name]] on the object at [a]. *)
Definition removeProperty (a : loc) (name : jsstring) : M unit :=
  let* props := getAttributes a in
  setAttributes a (deleteProperty props name).

Definition createElement (name : ElementName) (attributes : option loc)
    (rawContents : list Content) : M loc :=
  let* contents :=
    match attributes with
    | Some a =>
        let* hatch := readProperty a dangerousInnerHtml in
        if truthy hatch then
          let* html := readProperty a dangerousInnerHtml in
          let* text := alloc (TextNode (concatString html)) in
          let* _ := removeProperty a dangerousInnerHtml in
          ret [Ref text]
        else ret rawContents
    | None => ret rawContents
    end in
  match name with
  | Handler name =>
      let* flat := flattenContents contents in
      name attributes flat
  | TagName name =>
      let tagName := toKebabCase name in
      let* flat := flattenContents contents in
      let* node := alloc (RenderNode tagName attributes flat) in
      ret node
  end.

(** * Vocabulary of the properties *)

(** A code unit in [A]..[Z]. *)
Definition upperUnit (c : N) : bool :=
  (capitalACharCode <=? c) && (c <=? capitalZCharCode).

(** The unit at [i] is an upper-case letter with a neighbour that is
    not one, the ends of the string counting as upper case. *)
Definition atWordBoundary (s : jsstring) (i : nat) : bool :=
  let prev := if (0 <? i)%nat then isUpper s (i - 1) else true in
  let next := if (i <? length s - 1)%nat then isUpper s (i + 1) else true in
  isUpper s i && (negb prev || negb next).

(** What the unit at index [i] becomes. *)
Definition kebabPiece (s : jsstring) (i : nat) : jsstring :=
  match s !! i with
  | Some c => if atWordBoundary s i then [hyphen; toLowerCase c] else [c]
  | None => []
  end.

(** What the attribute-value escape does to one code unit. *)
Definition attrEscapeUnit (u : N) : jsstring :=
  if u =? ampersand then js "&amp;"
  else if u =? dquote then js "&quot;"
  else if u =? nbsp then js "&nbsp;"
  else [u].

(** What the text-content escape does to one code unit. *)
Definition contentEscapeUnit (u : N) : jsstring :=
  if u =? ampersand then js "&amp;"
  else if u =? lessThan then js "&lt;"
  else if u =? greaterThan then js "&gt;"
  else if u =? dquote then js "&quot;"
  else [u].

(** The final content items of a raw content, depth first and left to
    right. *)
Fixpoint leaves (content : Content) : list Content :=
  match content with
  | Arr _ items => flat_map leaves items
  | _ => [content]
  end.

(** The content is one that the flattener returns on: every reference
    holds a TextNode, a RenderNode or an attributes object without an own
    [toString], and every array is in the store with the elements
    stated. *)
Fixpoint flattenable (σ : store) (content : Content) : bool :=
  match content with
  | Ref l =>
      match σ !! l with
      | Some (TextNode _) => true
      | Some (RenderNode _ _ _) => true
      | Some (AttributesObject props) => negb (ownToString props)
      | _ => false
      end
  | Arr l items =>
      match σ !! l with
      | Some (ArrayObject elements) =>
          bool_decide (elements = map shallow items) && forallb (flattenable σ) items
      | _ => false
      end
  | Prim _ => true
  end.

(** What a final content item becomes: a TextNode or RenderNode stays the
    reference it is, any other value becomes the escaped text of its string
    conversion. *)
Definition leafResult (σ : store) (leaf : Content) : option ContentType :=
  match leaf with
  | Ref l =>
      match σ !! l with
      | Some (TextNode _) => Some (CNode l)
      | Some (RenderNode _ _ _) => Some (CNode l)
      | Some (AttributesObject props) =>
          if ownToString props then None
          else Some (CString (escapeContent (js "[object Object]")))
      | _ => None
      end
  | Prim p => Some (CString (escapeContent (Primitive_toString p)))
  | Arr _ _ => None
  end.

Inductive flattensTo (σ : store) : Content -> ContentType -> Prop :=
| flattens_TextNode l contents :
    σ !! l = Some (TextNode contents) ->
    flattensTo σ (Ref l) (CNode l)
| flattens_RenderNode l tagName attributes children :
    σ !! l = Some (RenderNode tagName attributes children) ->
    flattensTo σ (Ref l) (CNode l)
| flattens_object l props :
    σ !! l = Some (AttributesObject props) ->
    ownToString props = false ->
    flattensTo σ (Ref l) (CString (escapeContent (js "[object Object]")))
| flattens_primitive p :
    flattensTo σ (Prim p) (CString (escapeContent (Primitive_toString p))).

(** The result of a computation that only reads the store. *)
Definition reading {A} (r : option A) (σ : store) : option (A * store) :=
  (fun a => (a, σ)) <$> r.

(** The attribute block of an attributes object with the properties
    [props]. *)
Definition serialized (props : Attributes) : jsstring :=
  js " " ++ join (js " ")
              (List.filter nonEmpty (map (attributeToString props) (keys props))).

(** The second half of [createElement]: the handler is called, or the
    element is constructed. *)
Definition dispatch (name : ElementName) (attributes : option loc)
    (flat : list ContentType) : M loc :=
  match name with
  | Handler handler => handler attributes flat
  | TagName name => alloc (RenderNode (toKebabCase name) attributes flat)
  end.

(** The store once the escape hatch is taken: the new TextNode, and the
    attributes object without the reserved property. *)
Definition hatchStore (σ : store) (a : loc) (props : Attributes) : store :=
  <[a := AttributesObject (deleteProperty props dangerousInnerHtml)]> σ
  ++ [TextNode (concatString (getProperty props dangerousInnerHtml))].

(** The escape hatch is not taken: no attributes, or a reserved
    property that is not true. *)
Definition noHatch (σ : store) (attributes : option loc) : Prop :=
  match attributes with
  | Some a =>
      exists props, σ !! a = Some (AttributesObject props)
                    /\ truthy (getProperty props dangerousInnerHtml) = false
  | None => True
  end.

(** The types of the source hold of a call: [attributes], when given,
    is an attributes object, and the references among the contents
    point into the store. *)
Definition attributesTyped (σ : store) (attributes : option loc) : bool :=
  match attributes with
  | Some a =>
      match σ !! a with
      | Some (AttributesObject _) => true
      | _ => false
      end
  | None => true
  end.

Definition wellTyped (σ : store) (attributes : option loc)
    (rawContents : list Content) : bool :=
  attributesTyped σ attributes && forallb (flattenable σ) rawContents.

(** The text of one child, as [RenderNode.prototype.toString] takes it. *)
Definition childText (σ : store) (fuel : nat) (child : ContentType)
  : option jsstring :=
  match child with
  | CString s => Some s
  | CNode l => toString fuel σ l
  end.

(** What [createElement] has done to the objects of [σ] when the store is
    [σ']: every object but the attributes object is as it was, and the
    attributes object has its properties as they were, or without the
    reserved property it had; in both cases the other properties are the
    same, in the same order. *)
Definition onlyHatchDeleted (σ σ' : store) (attributes : option loc) : Prop :=
  (forall l o, σ !! l = Some o -> attributes <> Some l -> σ' !! l = Some o)
  /\ (forall a props,
        attributes = Some a -> σ !! a = Some (AttributesObject props) ->
        exists props',
          σ' !! a = Some (AttributesObject props')
          /\ (props' = props
              \/ In dangerousInnerHtml (keys props)
                 /\ props' = deleteProperty props dangerousInnerHtml)
          /\ (forall other, other <> dangerousInnerHtml ->
                getProperty props' other = getProperty props other)
          /\ deleteProperty props' dangerousInnerHtml
             = deleteProperty props dangerousInnerHtml).

(** A name with its hyphens removed and its letters in lower case. *)
Definition caseless (s : jsstring) : jsstring :=
  map toLowerCase (List.filter (fun u => negb (u =? hyphen)) s).

(** The units that the text-content escape replaces. *)
Definition contentSpecial (u : N) : bool :=
  (u =? ampersand) || (u =? lessThan) || (u =? greaterThan) || (u =? dquote).

(** The units that the attribute-value escape replaces. *)
Definition attrSpecial (u : N) : bool :=
  (u =? ampersand) || (u =? dquote) || (u =? nbsp).

(** A text without angle bracket and without double quote: markup cannot
    start or end in it. *)
Definition markupFree (s : jsstring) : bool :=
  forallb (fun u => negb ((u =? lessThan) || (u =? greaterThan) || (u =? dquote))) s.

(** A text without double quote and without non-breaking space. *)
Definition quoteFree (s : jsstring) : bool :=
  forallb (fun u => negb ((u =? dquote) || (u =? nbsp))) s.

(** The reference points to a TextNode or a RenderNode. *)
Definition liveNode (σ : store) (l : loc) : bool :=
  match σ !! l with
  | Some (TextNode _) => true
  | Some (RenderNode _ _ _) => true
  | _ => false
  end.

(** An element of a flattened sequence is a reference to a node, or a
    text in which no markup can start. *)
Definition safeItem (σ : store) (item : ContentType) : bool :=
  match item with
  | CNode l => liveNode σ l
  | CString s => markupFree s
  end.

(** An element of [children] passed on as a raw content. *)
Definition toContent (item : ContentType) : Content :=
  match item with
  | CNode l => Ref l
  | CString s => Prim (PString s)
  end.

(** What flattening makes of an element that was flattened before. *)
Definition flattenedAgain (item : ContentType) : ContentType :=
  match item with
  | CNode l => CNode l
  | CString s => CString (escapeContent s)
  end.

(** * Properties *)

(** ** Strings *)

Lemma flat_map_flat_map {A B C} (f : A -> list B) (g : B -> list C) (l : list A) :
  flat_map g (flat_map f l) = flat_map (fun a => flat_map g (f a)) l.
Proof.
  induction l as [|a l IH]; simpl; [reflexivity|].
  rewrite flat_map_app. f_equal. exact IH.
Qed.

Lemma join_empty_separator (parts : list jsstring) : join [] parts = concat parts.
Proof.
  induction parts as [|p [|q rest] IH]; simpl in *.
  - reflexivity.
  - symmetry. apply app_nil_r.
  - f_equal. exact IH.
Qed.

(** ** Name transformer *)

Lemma toKebabCase_step_piece s acc i :
  toKebabCase_step s acc i = acc ++ kebabPiece s i.
Proof.
  unfold toKebabCase_step, kebabPiece, atWordBoundary.
  destruct (s !! i) as [c|]; [|symmetry; apply app_nil_r].
  destruct (isUpper s i); simpl.
  - rewrite andb_true_r.
    destruct (negb _ || negb _); [rewrite <- app_assoc|]; reflexivity.
  - rewrite andb_false_r. reflexivity.
Qed.

Lemma toKebabCase_loop s idx acc :
  fold_left (toKebabCase_step s) idx acc = acc ++ flat_map (kebabPiece s) idx.
Proof.
  revert acc. induction idx as [|i idx IH]; intros acc; simpl.
  - symmetry. apply app_nil_r.
  - rewrite IH, toKebabCase_step_piece, <- app_assoc. reflexivity.
Qed.

Lemma toKebabCase_pieces s :
  toKebabCase s = flat_map (kebabPiece s) (seq 0 (length s)).
Proof. unfold toKebabCase. apply toKebabCase_loop. Qed.

Lemma isUpper_lookup (s : jsstring) i c : s !! i = Some c -> isUpper s i = upperUnit c.
Proof. unfold isUpper, charCodeAt. intros ->. reflexivity. Qed.

Lemma toLowerCase_not_upper c : upperUnit c = true -> upperUnit (toLowerCase c) = false.
Proof.
  unfold toLowerCase, upperUnit, capitalACharCode, capitalZCharCode.
  intros H. rewrite H.
  apply andb_true_iff in H as [H1 H2].
  apply N.leb_le in H1, H2.
  apply andb_false_iff. right. apply N.leb_gt. lia.
Qed.

Lemma kebabPiece_upper s i :
  (i < length s)%nat ->
  forallb (fun c => negb (upperUnit c)) (kebabPiece s i)
  = negb (isUpper s i) || atWordBoundary s i.
Proof.
  intros Hi. unfold kebabPiece.
  destruct (lookup_lt_is_Some_2 s i Hi) as [c Hc]. rewrite Hc.
  destruct (atWordBoundary s i) eqn:Hb.
  - rewrite orb_true_r.
    assert (Hu : upperUnit c = true).
    { unfold atWordBoundary in Hb. apply andb_true_iff in Hb as [Hb _].
      rewrite (isUpper_lookup _ _ _ Hc) in Hb. exact Hb. }
    simpl. rewrite (toLowerCase_not_upper _ Hu). reflexivity.
  - rewrite orb_false_r, (isUpper_lookup _ _ _ Hc). simpl.
    apply andb_true_r.
Qed.

Lemma forallb_flat_map {A B} (p : B -> bool) (f : A -> list B) (l : list A) :
  forallb p (flat_map f l) = forallb (fun a => forallb p (f a)) l.
Proof.
  induction l as [|a l IH]; simpl; [reflexivity|].
  rewrite forallb_app, IH. reflexivity.
Qed.

Lemma forallb_ext_in {A} (p q : A -> bool) (l : list A) :
  (forall a, In a l -> p a = q a) -> forallb p l = forallb q l.
Proof.
  induction l as [|a l IH]; simpl; intros H; [reflexivity|].
  rewrite (H a), IH; auto.
Qed.

(** The result is free of upper-case letters exactly when every
    upper-case letter of the input stands at a word boundary. *)
Lemma toKebabCase_lower s :
  forallb (fun c => negb (upperUnit c)) (toKebabCase s)
  = forallb (fun i => negb (isUpper s i) || atWordBoundary s i) (seq 0 (length s)).
Proof.
  rewrite toKebabCase_pieces, forallb_flat_map.
  apply forallb_ext_in. intros i Hi.
  apply in_seq in Hi. apply kebabPiece_upper. lia.
Qed.

(** ** Escaper *)

Lemma escapeAttrNodeValue_units value :
  escapeAttrNodeValue value = flat_map attrEscapeUnit value.
Proof.
  unfold escapeAttrNodeValue. apply flat_map_ext. intros u.
  unfold attrPattern_match, attrEscapeUnit.
  destruct (u =? ampersand); [reflexivity|].
  destruct (u =? dquote); [reflexivity|].
  destruct (u =? nbsp); reflexivity.
Qed.

Lemma escapeContent_units text :
  escapeContent text = flat_map contentEscapeUnit text.
Proof.
  unfold escapeContent, replaceAll.
  rewrite !flat_map_flat_map. apply flat_map_ext. intros u.
  unfold contentEscapeUnit.
  destruct (u =? ampersand) eqn:E1; [reflexivity|].
  simpl. rewrite app_nil_r.
  destruct (u =? lessThan) eqn:E2; [reflexivity|].
  simpl. rewrite app_nil_r.
  destruct (u =? greaterThan) eqn:E3; [reflexivity|].
  simpl. rewrite !app_nil_r.
  destruct (u =? dquote) eqn:E4; reflexivity.
Qed.

(** ** Content flattener *)

Lemma Content_nested_ind (P : Content -> Prop) :
  (forall l, P (Ref l)) ->
  (forall l items, Forall P items -> P (Arr l items)) ->
  (forall p, P (Prim p)) ->
  forall content, P content.
Proof.
  intros HRef HArr HPrim. fix IH 1. intros [l|l items|p].
  - apply HRef.
  - apply HArr. induction items as [|c items IHitems]; constructor.
    + apply IH.
    + exact IHitems.
  - apply HPrim.
Qed.

Lemma leafResult_flattensTo σ leaf out :
  leafResult σ leaf = Some out -> flattensTo σ leaf out.
Proof.
  destruct leaf as [l|l items|p]; simpl; intros H.
  - destruct (σ !! l) as [[contents|tagName attributes children|props|elements]|] eqn:Hl;
      try discriminate.
    + injection H as <-. econstructor. exact Hl.
    + injection H as <-. econstructor 2. exact Hl.
    + destruct (ownToString props) eqn:Hown; [discriminate|].
      injection H as <-. econstructor 3; eassumption.
  - discriminate.
  - injection H as <-. constructor.
Qed.

Lemma mapM_option_app {A B} (f : A -> option B) (l1 l2 : list A) :
  mapM f (l1 ++ l2) = r1 ← mapM f l1; r2 ← mapM f l2; Some (r1 ++ r2).
Proof.
  induction l1 as [|a l1 IH]; simpl.
  - destruct (mapM f l2); reflexivity.
  - destruct (f a) as [b|]; simpl; [|reflexivity].
    rewrite IH. destruct (mapM f l1); simpl; [|reflexivity].
    destruct (mapM f l2); reflexivity.
Qed.

Lemma forEachPush_reading {A B} (body : A -> M (list B))
    (spec : A -> list A) (leaf : store -> A -> option B) (items : list A) σ :
  Forall (fun item => body item σ = reading (mapM (leaf σ) (spec item)) σ) items ->
  forEachPush body items σ = reading (mapM (leaf σ) (flat_map spec items)) σ.
Proof.
  induction 1 as [|item items Hitem _ IH]; simpl; [reflexivity|].
  unfold bind at 1. rewrite Hitem, mapM_option_app.
  destruct (mapM (leaf σ) (spec item)) as [r1|]; simpl; [|reflexivity].
  unfold bind at 1. rewrite IH.
  destruct (mapM (leaf σ) (flat_map spec items)); reflexivity.
Qed.

Lemma Forall_forallb_impl {A} (P : A -> Prop) (p : A -> bool) (l : list A) :
  Forall (fun a => p a = true -> P a) l -> forallb p l = true -> Forall P l.
Proof.
  induction 1 as [|a l Ha _ IH]; simpl; intros H; constructor;
    apply andb_true_iff in H as [H1 H2]; auto.
Qed.

Lemma flattenContents_body_leaves content σ :
  flattenable σ content = true ->
  flattenContents_body content σ = reading (mapM (leafResult σ) (leaves content)) σ.
Proof.
  induction content as [l|l items IH|p] using Content_nested_ind; simpl; intros H.
  - unfold bind, getObject.
    destruct (σ !! l) as [[contents|tagName attributes children|props|elements]|];
      try discriminate; try reflexivity.
    simpl. unfold concatObject, AttributesObject_toString.
    destruct (ownToString props); [discriminate|reflexivity].
  - unfold bind at 1. unfold getObject.
    destruct (σ !! l) as [[contents|tagName attributes children|props|elements]|];
      try discriminate.
    apply andb_true_iff in H as [Helements Hitems]. simpl.
    unfold bind at 1. unfold elementsAre. rewrite Helements. unfold ret at 1.
    apply forEachPush_reading. exact (Forall_forallb_impl _ _ _ IH Hitems).
  - reflexivity.
Qed.

Lemma flattenContents_leaves contents σ :
  forallb (flattenable σ) contents = true ->
  flattenContents contents σ
  = reading (mapM (leafResult σ) (flat_map leaves contents)) σ.
Proof.
  intros H. unfold flattenContents. apply forEachPush_reading.
  apply (Forall_forallb_impl _ (flattenable σ)); [|exact H].
  apply List.Forall_forall. intros c _. apply flattenContents_body_leaves.
Qed.

Lemma flattenable_leaves σ content :
  flattenable σ content = true ->
  Forall (fun leaf => is_Some (leafResult σ leaf)) (leaves content).
Proof.
  induction content as [l|l items IH|p] using Content_nested_ind; simpl; intros H.
  - constructor; [|constructor]. cbv beta. unfold leafResult.
    destruct (σ !! l) as [[contents|tagName attributes children|props|elements]|];
      try discriminate; eauto.
    destruct (ownToString props); [discriminate|eauto].
  - destruct (σ !! l) as [[contents|tagName attributes children|props|elements]|];
      try discriminate.
    apply andb_true_iff in H as [_ H].
    induction IH as [|c items Hc _ IHitems]; simpl in *; [constructor|].
    apply andb_true_iff in H as [H1 H2].
    apply Forall_app. split; auto.
  - constructor; [eauto|constructor].
Qed.

Lemma mapM_option_is_Some {A B} (f : A -> option B) (l : list A) :
  Forall (fun a => is_Some (f a)) l -> is_Some (mapM f l).
Proof.
  induction 1 as [|a l [b Hb] _ [k Hk]]; simpl; [eauto|].
  rewrite Hb. simpl. rewrite Hk. simpl. eauto.
Qed.

(** On contents that can be flattened the flattener returns, and leaves
    the store as it found it. *)
Lemma flattenContents_returns σ contents :
  forallb (flattenable σ) contents = true ->
  exists flat,
    flattenContents contents σ = Some (flat, σ)
    /\ mapM (leafResult σ) (flat_map leaves contents) = Some flat.
Proof.
  intros H.
  assert (Hs : is_Some (mapM (leafResult σ) (flat_map leaves contents))).
  { apply mapM_option_is_Some. clear -H.
    induction contents as [|c contents IH]; simpl in *; [constructor|].
    apply andb_true_iff in H as [H1 H2].
    apply Forall_app. split; [apply flattenable_leaves; exact H1 | auto]. }
  destruct Hs as [flat Hflat]. exists flat. split; [|exact Hflat].
  rewrite (flattenContents_leaves _ _ H), Hflat. reflexivity.
Qed.

(** The flattened sequence has, for each final item in order, what that
    item becomes. *)
Lemma flattenContents_flattensTo (σ : store) contents :
  forallb (flattenable σ) contents = true ->
  exists flat,
    flattenContents contents σ = Some (flat, σ)
    /\ Forall2 (flattensTo σ) (flat_map leaves contents) flat.
Proof.
  intros H. destruct (flattenContents_returns _ _ H) as (flat & Hflat & Hleaves).
  exists flat. split; [exact Hflat|].
  apply mapM_Some_1 in Hleaves.
  eapply Forall2_impl; [exact Hleaves|]. apply leafResult_flattensTo.
Qed.

Lemma forEachPush_reads {A B} (body : A -> M (list B)) (items : list A) :
  Forall (fun item => forall σ r σ', body item σ = Some (r, σ') -> σ' = σ) items ->
  forall σ r σ', forEachPush body items σ = Some (r, σ') -> σ' = σ.
Proof.
  induction 1 as [|item items Hitem _ IH]; simpl; intros σ r σ' H.
  - injection H as _ <-. reflexivity.
  - unfold bind at 1 in H.
    destruct (body item σ) as [[pushed σ1]|] eqn:Hbody; [|discriminate].
    apply Hitem in Hbody as ->.
    unfold bind at 1 in H.
    destruct (forEachPush body items σ) as [[results σ2]|] eqn:Hrest; [|discriminate].
    apply IH in Hrest as ->. injection H as _ <-. reflexivity.
Qed.

Lemma concatObject_reads o σ text σ' : concatObject o σ = Some (text, σ') -> σ' = σ.
Proof.
  destruct o as [| |props|]; simpl; try discriminate.
  destruct (AttributesObject_toString props); [|discriminate].
  intros H. injection H as _ <-. reflexivity.
Qed.

Lemma flattenContents_body_reads content :
  forall σ r σ', flattenContents_body content σ = Some (r, σ') -> σ' = σ.
Proof.
  induction content as [l|l items IH|p] using Content_nested_ind; simpl; intros σ r σ' H.
  - unfold bind at 1, getObject in H.
    destruct (σ !! l) as [o|]; [|discriminate].
    destruct (instanceofNode o); [injection H as _ <-; reflexivity|].
    destruct (isArray o); [discriminate|].
    unfold bind in H.
    destruct (concatObject o σ) as [[text σ1]|] eqn:Htext; [|discriminate].
    apply concatObject_reads in Htext as ->. injection H as _ <-. reflexivity.
  - unfold bind at 1, getObject in H.
    destruct (σ !! l) as [o|]; [|discriminate].
    destruct (instanceofNode o); [injection H as _ <-; reflexivity|].
    destruct (isArray o).
    + unfold bind at 1 in H. unfold elementsAre in H.
      destruct o as [| | |elements]; try discriminate.
      destruct (bool_decide _); [|discriminate].
      unfold ret at 1 in H. eapply forEachPush_reads; eassumption.
    + unfold bind in H.
      destruct (concatObject o σ) as [[text σ1]|] eqn:Htext; [|discriminate].
      apply concatObject_reads in Htext as ->. injection H as _ <-. reflexivity.
  - injection H as _ <-. reflexivity.
Qed.

(** The flattener only reads the store. *)
Lemma flattenContents_reads contents σ flat σ' :
  flattenContents contents σ = Some (flat, σ') -> σ' = σ.
Proof.
  apply forEachPush_reads. apply List.Forall_forall. intros c _.
  apply flattenContents_body_reads.
Qed.

Lemma forEachPush_app {A B} (body : A -> M (list B)) (xs ys : list A) σ :
  forEachPush body (xs ++ ys) σ
  = (let* first := forEachPush body xs in
     let* second := forEachPush body ys in
     ret (first ++ second)) σ.
Proof.
  revert σ. induction xs as [|x xs IH]; intros σ; simpl.
  - unfold bind, ret. destruct (forEachPush body ys σ) as [[second σ']|]; reflexivity.
  - unfold bind, ret.
    destruct (body x σ) as [[pushed σ1]|]; [|reflexivity].
    rewrite IH. unfold bind, ret.
    destruct (forEachPush body xs σ1) as [[first σ2]|]; [|reflexivity].
    destruct (forEachPush body ys σ2) as [[second σ3]|]; [|reflexivity].
    rewrite app_assoc. reflexivity.
Qed.

(** A value that has no string conversion stops the flattener, wherever
    it stands among the contents. *)
Lemma flattenContents_throws (σ : store) l props before after :
  σ !! l = Some (AttributesObject props) ->
  ownToString props = true ->
  flattenContents (before ++ Ref l :: after) σ = None.
Proof.
  intros Hl Hown. unfold flattenContents. rewrite forEachPush_app. unfold bind at 1.
  destruct (forEachPush flattenContents_body before σ) as [[first σ1]|] eqn:Hbefore;
    [|reflexivity].
  apply forEachPush_reads in Hbefore as ->;
    [|apply List.Forall_forall; intros c _; apply flattenContents_body_reads].
  unfold bind at 1. simpl. unfold bind at 1. unfold bind at 1. unfold getObject.
  rewrite Hl. simpl. unfold bind, concatObject, AttributesObject_toString.
  rewrite Hown. reflexivity.
Qed.

(** ** Attributes objects *)

Lemma getAttributes_lookup (σ : store) a props :
  σ !! a = Some (AttributesObject props) ->
  getAttributes a σ = Some (props, σ).
Proof. intros H. unfold getAttributes, bind, getObject. rewrite H. reflexivity. Qed.

Lemma readProperty_lookup (σ : store) a props name :
  σ !! a = Some (AttributesObject props) ->
  readProperty a name σ = Some (getProperty props name, σ).
Proof.
  intros H. unfold readProperty, bind. rewrite (getAttributes_lookup _ _ _ H).
  reflexivity.
Qed.

Lemma removeProperty_lookup (σ : store) a props name :
  σ !! a = Some (AttributesObject props) ->
  removeProperty a name σ
  = Some (tt, <[a := AttributesObject (deleteProperty props name)]> σ).
Proof.
  intros H. unfold removeProperty, setAttributes, bind.
  rewrite !(getAttributes_lookup _ _ _ H). reflexivity.
Qed.

Lemma getProperty_deleteProperty_ne (props : Attributes) name other :
  other <> name ->
  getProperty (deleteProperty props name) other = getProperty props other.
Proof.
  intros Hne. induction props as [|[k v] props IH]; simpl; [reflexivity|].
  destruct (bool_decide_reflect (k = name)) as [->|Hk]; simpl.
  - rewrite IH. rewrite bool_decide_false; [reflexivity|congruence].
  - rewrite IH. reflexivity.
Qed.

Lemma getProperty_deleteProperty (props : Attributes) name :
  getProperty (deleteProperty props name) name = AUndefined.
Proof.
  induction props as [|[k v] props IH]; simpl; [reflexivity|].
  destruct (bool_decide_reflect (k = name)) as [->|Hk]; simpl; [exact IH|].
  rewrite bool_decide_false; [exact IH|exact Hk].
Qed.

Lemma keys_deleteProperty (props : Attributes) name :
  keys (deleteProperty props name)
  = List.filter (fun k => negb (bool_decide (k = name))) (keys props).
Proof.
  induction props as [|[k v] props IH]; simpl; [reflexivity|].
  destruct (bool_decide (k = name)); simpl; rewrite IH; reflexivity.
Qed.

Lemma not_in_keys_deleteProperty (props : Attributes) name :
  ~ In name (keys (deleteProperty props name)).
Proof.
  rewrite keys_deleteProperty. intros H. apply filter_In in H as [_ H].
  rewrite bool_decide_true in H; [discriminate|reflexivity].
Qed.

Lemma getProperty_not_in (props : Attributes) name :
  ~ In name (keys props) -> getProperty props name = AUndefined.
Proof.
  induction props as [|[k v] props IH]; simpl; intros H; [reflexivity|].
  rewrite bool_decide_false; [|intuition]. apply IH. intuition.
Qed.

Lemma deleteProperty_not_in (props : Attributes) name :
  ~ In name (keys props) -> deleteProperty props name = props.
Proof.
  induction props as [|[k v] props IH]; simpl; intros H; [reflexivity|].
  rewrite bool_decide_false; [|intuition]. simpl. f_equal. apply IH. intuition.
Qed.

Lemma attributesToString_lookup (σ : store) a props :
  σ !! a = Some (AttributesObject props) ->
  attributesToString σ (Some a) = Some (serialized props).
Proof. intros H. unfold attributesToString. rewrite H. reflexivity. Qed.

Lemma attributeToString_deleteProperty_ne (props : Attributes) name other :
  other <> name ->
  attributeToString (deleteProperty props name) other = attributeToString props other.
Proof.
  intros H. unfold attributeToString.
  rewrite (getProperty_deleteProperty_ne _ _ _ H). reflexivity.
Qed.

(** Without the property [name], the block is that of the other
    properties, in their order. *)
Lemma serialized_deleteProperty (props : Attributes) name :
  serialized (deleteProperty props name)
  = js " " ++ join (js " ")
      (List.filter nonEmpty
         (map (attributeToString props)
            (List.filter (fun k => negb (bool_decide (k = name))) (keys props)))).
Proof.
  unfold serialized. rewrite keys_deleteProperty. do 3 f_equal.
  apply map_ext_in. intros k Hk. apply filter_In in Hk as [_ Hk].
  apply attributeToString_deleteProperty_ne.
  intros ->. rewrite bool_decide_true in Hk; [discriminate|reflexivity].
Qed.

(** ** Tree builder *)

(** One step of a computation whose result is known. *)
Ltac bind_with H := unfold bind at 1; rewrite H.

Lemma onlyHatchDeleted_plain (σ more : store) attributes :
  onlyHatchDeleted σ (σ ++ more) attributes.
Proof.
  split.
  - intros l o Hl _. rewrite lookup_app_l by (eapply lookup_lt_Some; exact Hl).
    exact Hl.
  - intros a props _ Ha. exists props.
    split; [|split; [left; reflexivity|split; reflexivity]].
    rewrite lookup_app_l by (eapply lookup_lt_Some; exact Ha). exact Ha.
Qed.

Section escape_hatch_taken.

(** The attributes object at [a], with the properties [props], in the
    store [σ] of the call. *)
Variables (σ : store) (a : loc) (props : Attributes).
Hypothesis Ha : σ !! a = Some (AttributesObject props).

Lemma hatchStore_length : length (hatchStore σ a props) = S (length σ).
Proof. unfold hatchStore. rewrite length_app, length_insert. simpl. lia. Qed.

Lemma hatchStore_lookup_attributes :
  hatchStore σ a props !! a
  = Some (AttributesObject (deleteProperty props dangerousInnerHtml)).
Proof.
  pose proof (lookup_lt_Some _ _ _ Ha) as Hlt. unfold hatchStore.
  rewrite lookup_app_l by (rewrite length_insert; exact Hlt).
  apply list_lookup_insert_eq. exact Hlt.
Qed.

Lemma hatchStore_lookup_text :
  hatchStore σ a props !! length σ
  = Some (TextNode (concatString (getProperty props dangerousInnerHtml))).
Proof.
  unfold hatchStore.
  rewrite lookup_app_r by (rewrite length_insert; lia).
  rewrite length_insert, Nat.sub_diag. reflexivity.
Qed.

Lemma hatchStore_lookup_other l o :
  σ !! l = Some o -> l <> a -> hatchStore σ a props !! l = Some o.
Proof.
  intros H Hne. unfold hatchStore.
  rewrite lookup_app_l by (rewrite length_insert; eapply lookup_lt_Some; exact H).
  rewrite list_lookup_insert_ne by congruence. exact H.
Qed.

Lemma flattenContents_hatch :
  flattenContents [Ref (length σ)] (hatchStore σ a props)
  = Some ([CNode (length σ)], hatchStore σ a props).
Proof.
  unfold flattenContents. simpl. unfold bind, getObject.
  rewrite hatchStore_lookup_text. reflexivity.
Qed.

Lemma createElement_hatch name rawContents :
  truthy (getProperty props dangerousInnerHtml) = true ->
  createElement name (Some a) rawContents σ
  = dispatch name (Some a) [CNode (length σ)] (hatchStore σ a props).
Proof.
  intros Htruthy.
  assert (Hlt : (a < length σ)%nat) by (eapply lookup_lt_Some; exact Ha).
  assert (Ha' : forall o, (σ ++ [o]) !! a = Some (AttributesObject props)).
  { intros o. rewrite lookup_app_l by exact Hlt. exact Ha. }
  unfold createElement. unfold bind at 1.
  bind_with (readProperty_lookup _ _ _ dangerousInnerHtml Ha). rewrite Htruthy.
  bind_with (readProperty_lookup _ _ _ dangerousInnerHtml Ha).
  unfold bind at 1. unfold alloc at 1.
  bind_with (removeProperty_lookup _ _ _ dangerousInnerHtml (Ha' (TextNode
    (concatString (getProperty props dangerousInnerHtml))))).
  rewrite insert_app_l by exact Hlt.
  fold (hatchStore σ a props). unfold ret at 1.
  destruct name as [name|handler]; unfold dispatch; cbv beta iota.
  - bind_with flattenContents_hatch. unfold bind, ret, alloc. reflexivity.
  - bind_with flattenContents_hatch. reflexivity.
Qed.

Lemma truthy_in_keys (attributes : Attributes) name :
  truthy (getProperty attributes name) = true -> In name (keys attributes).
Proof.
  induction attributes as [|[k v] attributes IH]; simpl; [discriminate|].
  destruct (bool_decide_reflect (k = name)) as [->|Hne]; [auto|].
  intros H. right. apply IH. exact H.
Qed.

Lemma onlyHatchDeleted_hatch (more : store) :
  truthy (getProperty props dangerousInnerHtml) = true ->
  onlyHatchDeleted σ (hatchStore σ a props ++ more) (Some a).
Proof.
  intros Htruthy.
  assert (Hlen : forall l o, σ !! l = Some o ->
                             (l < length (hatchStore σ a props))%nat).
  { intros l o Hl. rewrite hatchStore_length.
    apply lookup_lt_Some in Hl. lia. }
  split.
  - intros l o Hl Hne. rewrite lookup_app_l by (eapply Hlen; exact Hl).
    apply hatchStore_lookup_other; congruence.
  - intros a' props' Heq Ha'. injection Heq as <-.
    rewrite Ha in Ha'. injection Ha' as <-.
    exists (deleteProperty props dangerousInnerHtml).
    split.
    { rewrite lookup_app_l by (eapply Hlen; exact Ha).
      exact hatchStore_lookup_attributes. }
    split.
    { right. split; [apply truthy_in_keys; exact Htruthy|reflexivity]. }
    split.
    { intros other Hne. apply getProperty_deleteProperty_ne. exact Hne. }
    apply deleteProperty_not_in. apply not_in_keys_deleteProperty.
Qed.

End escape_hatch_taken.

Lemma createElement_plain (σ : store) name attributes rawContents flat :
  noHatch σ attributes ->
  flattenContents rawContents σ = Some (flat, σ) ->
  createElement name attributes rawContents σ = dispatch name attributes flat σ.
Proof.
  intros Hno Hflat. unfold createElement.
  assert (Hcontents :
    (match attributes with
     | Some a =>
         let* hatch := readProperty a dangerousInnerHtml in
         if truthy hatch then
           let* html := readProperty a dangerousInnerHtml in
           let* text := alloc (TextNode (concatString html)) in
           let* _ := removeProperty a dangerousInnerHtml in
           ret [Ref text]
         else ret rawContents
     | None => ret rawContents
     end) σ = Some (rawContents, σ)).
  { destruct attributes as [a|]; [|reflexivity].
    destruct Hno as (props & Ha & Hfalsy).
    bind_with (readProperty_lookup _ _ _ dangerousInnerHtml Ha). rewrite Hfalsy.
    reflexivity. }
  bind_with Hcontents.
  destruct name as [name|handler]; unfold dispatch; cbv beta iota.
  - bind_with Hflat. unfold bind, ret, alloc. reflexivity.
  - bind_with Hflat. reflexivity.
Qed.

Lemma attributesTyped_lookup (σ : store) a :
  attributesTyped σ (Some a) = true ->
  exists props, σ !! a = Some (AttributesObject props).
Proof.
  simpl. destruct (σ !! a) as [[| |props|]|]; try discriminate. eauto.
Qed.

(** A well-typed call either flattens its contents and dispatches, or
    takes the escape hatch and dispatches on the one TextNode. *)
Lemma createElement_cases (σ : store) attributes rawContents :
  wellTyped σ attributes rawContents = true ->
  (exists flat,
      noHatch σ attributes
      /\ flattenContents rawContents σ = Some (flat, σ)
      /\ mapM (leafResult σ) (flat_map leaves rawContents) = Some flat
      /\ forall name,
          createElement name attributes rawContents σ
          = dispatch name attributes flat σ)
  \/ (exists a props,
        attributes = Some a
        /\ σ !! a = Some (AttributesObject props)
        /\ truthy (getProperty props dangerousInnerHtml) = true
        /\ forall name,
            createElement name attributes rawContents σ
            = dispatch name attributes [CNode (length σ)] (hatchStore σ a props)).
Proof.
  intros Hwt. apply andb_true_iff in Hwt as [Hattrs Hraw].
  destruct (flattenContents_returns _ _ Hraw) as (flat & Hflat & Hleaves).
  assert (Hplain : noHatch σ attributes ->
                   exists flat,
                     noHatch σ attributes
                     /\ flattenContents rawContents σ = Some (flat, σ)
                     /\ mapM (leafResult σ) (flat_map leaves rawContents) = Some flat
                     /\ forall name,
                         createElement name attributes rawContents σ
                         = dispatch name attributes flat σ).
  { intros Hno. exists flat. repeat split; try assumption.
    intros name. apply createElement_plain; assumption. }
  destruct attributes as [a|]; [|left; apply Hplain; exact I].
  destruct (attributesTyped_lookup _ _ Hattrs) as [props Ha].
  destruct (truthy (getProperty props dangerousInnerHtml)) eqn:Htruthy.
  - right. exists a, props. repeat split; try assumption.
    intros name. apply createElement_hatch; assumption.
  - left. apply Hplain. exists props. split; assumption.
Qed.

(** ** Rendering *)

Lemma toString_TextNode (σ : store) l contents fuel :
  σ !! l = Some (TextNode contents) ->
  toString (S fuel) σ l = Some contents.
Proof. intros H. simpl. rewrite H. reflexivity. Qed.

Lemma toString_RenderNode (σ : store) l tagName attributes children fuel :
  σ !! l = Some (RenderNode tagName attributes children) ->
  toString (S fuel) σ l
  = RenderNode_toString σ (toString fuel σ) tagName attributes children.
Proof. intros H. simpl. rewrite H. reflexivity. Qed.

Lemma RenderNode_toString_childless σ child_toString tagName attributes attrs :
  isVoidElement tagName = true ->
  attributesToString σ attributes = Some attrs ->
  RenderNode_toString σ child_toString tagName attributes []
  = Some (js "<" ++ tagName ++ attrs ++ js ">").
Proof.
  intros Hvoid Hattrs. unfold RenderNode_toString.
  rewrite Hvoid, Hattrs. reflexivity.
Qed.

Lemma RenderNode_toString_children σ fuel tagName attributes children attrs texts :
  children <> [] ->
  attributesToString σ attributes = Some attrs ->
  mapM (childText σ fuel) children = Some texts ->
  RenderNode_toString σ (toString fuel σ) tagName attributes children
  = Some (js "<" ++ tagName ++ attrs ++ js ">" ++ concat texts
          ++ js "</" ++ tagName ++ js ">").
Proof.
  intros Hne Hattrs Htexts. unfold RenderNode_toString.
  destruct children as [|child children]; [congruence|].
  replace (0 <? length (child :: children))%nat with true by reflexivity.
  rewrite andb_false_r.
  change (fun child0 => match child0 with
                        | CNode l => toString fuel σ l
                        | CString s => Some s
                        end) with (childText σ fuel).
  rewrite Htexts, Hattrs. simpl. rewrite join_empty_separator. reflexivity.
Qed.

Lemma attributesToString_extend (σ more : store) attributes attrs :
  attributesToString σ attributes = Some attrs ->
  attributesToString (σ ++ more) attributes = Some attrs.
Proof.
  destruct attributes as [a|]; simpl; [|auto].
  destruct (σ !! a) as [o|] eqn:Ha; [|discriminate].
  rewrite (lookup_app_l_Some _ _ _ _ Ha). auto.
Qed.

Lemma mapM_option_mono {A B} (f g : A -> option B) (l : list A) k :
  (forall x y, f x = Some y -> g x = Some y) ->
  mapM f l = Some k -> mapM g l = Some k.
Proof.
  intros Hfg H. apply mapM_Some_1 in H. apply mapM_Some_2.
  eapply Forall2_impl; [exact H|]. exact Hfg.
Qed.

Lemma RenderNode_toString_mono (σ σ' : store) (f g : loc -> option jsstring)
    tagName attributes children s :
  (forall attrs, attributesToString σ attributes = Some attrs ->
                 attributesToString σ' attributes = Some attrs) ->
  (forall l t, f l = Some t -> g l = Some t) ->
  RenderNode_toString σ f tagName attributes children = Some s ->
  RenderNode_toString σ' g tagName attributes children = Some s.
Proof.
  intros Hattrs Hfg. unfold RenderNode_toString.
  destruct (isVoidElement tagName && negb (0 <? length children)%nat).
  - destruct (attributesToString σ attributes) as [attrs|] eqn:Ha; [|discriminate].
    rewrite (Hattrs _ eq_refl). auto.
  - destruct (0 <? length children)%nat.
    + destruct (mapM _ children) as [texts|] eqn:Htexts; [|discriminate].
      erewrite mapM_option_mono; [|clear Htexts|exact Htexts].
      * destruct (attributesToString σ attributes) as [attrs|] eqn:Ha;
          [|discriminate].
        rewrite (Hattrs _ eq_refl). auto.
      * intros [l|t] y; [apply Hfg|auto].
    + destruct (attributesToString σ attributes) as [attrs|] eqn:Ha; [|discriminate].
      rewrite (Hattrs _ eq_refl). auto.
Qed.

(** A text that a node renders to is the text it renders to with more
    fuel and in a store with more objects. *)
Lemma toString_stable (σ more : store) n :
  forall l s m,
    toString n σ l = Some s -> (n <= m)%nat -> toString m (σ ++ more) l = Some s.
Proof.
  induction n as [|n IH]; intros l s m H Hle; [discriminate|].
  destruct m as [|m]; [lia|]. simpl in *.
  destruct (σ !! l) as [o|] eqn:Hl; [|discriminate].
  rewrite (lookup_app_l_Some _ _ _ _ Hl).
  destruct o as [contents|tagName attributes children|props|elements]; try exact H.
  - eapply RenderNode_toString_mono; [| |exact H].
    + intros attrs. apply attributesToString_extend.
    + intros l' t Hl'. apply IH; [exact Hl'|lia].
  - destruct (mapM (elementText (toString n σ)) elements) as [texts|] eqn:Htexts;
      [|discriminate].
    erewrite mapM_option_mono; [exact H| |exact Htexts].
    intros [l'|p] t; simpl; [|auto].
    intros Hl'. apply IH; [exact Hl'|lia].
Qed.

Lemma RenderNode_toString_open σ fuel tagName attributes children attrs texts :
  children <> [] \/ isVoidElement tagName = false ->
  attributesToString σ attributes = Some attrs ->
  mapM (childText σ fuel) children = Some texts ->
  RenderNode_toString σ (toString fuel σ) tagName attributes children
  = Some (js "<" ++ tagName ++ attrs ++ js ">" ++ concat texts
          ++ js "</" ++ tagName ++ js ">").
Proof.
  intros Hopen Hattrs Htexts.
  destruct children as [|child children].
  - destruct Hopen as [Hne|Hvoid]; [congruence|].
    injection Htexts as <-. unfold RenderNode_toString.
    rewrite Hvoid, Hattrs. reflexivity.
  - apply RenderNode_toString_children; [discriminate|assumption|assumption].
Qed.

Lemma filter_nonEmpty (texts : list jsstring) :
  List.filter nonEmpty texts
  = List.filter (fun text => negb (bool_decide (text = []))) texts.
Proof.
  apply filter_ext. intros [|u text]; reflexivity.
Qed.

(** * The claims *)

(** ** Name transformer *)

(** C3, as stated, fails: the two letters of ID both have an upper-case
    letter or a string end on either side, so neither is converted, and the
    tag name of an element created under that name is ID as well. *)
Lemma toKebabCase_ID_counterexample :
  toKebabCase (js "ID") = js "ID"
  /\ toKebabCase (js "ID") <> js "id"
  /\ createElement (TagName (js "ID")) None [] []
     = Some (0%nat, [RenderNode (js "ID") None []]).
Proof. split; [reflexivity|]. split; [discriminate|reflexivity]. Qed.

(** C3, amended: the name transformer replaces an upper-case letter by a
    hyphen and its lower-case form exactly when the letter has a neighbour
    that is not upper case (the string ends counting as upper case), and
    copies every other unit; so toKebabCase of ID is ID, the result is free
    of upper-case letters exactly when every upper-case letter of the name
    has such a neighbour, and the tagName of the RenderNode that
    createElement constructs for a string name is toKebabCase of that
    name. *)
Theorem toKebabCase_tagName :
  toKebabCase (js "ID") = js "ID"
  /\ toKebabCase (js "dataFoo") = js "data-foo"
  /\ (forall name : jsstring,
        toKebabCase name
        = flat_map (fun i =>
                      match name !! i with
                      | Some c => if atWordBoundary name i
                                  then [hyphen; toLowerCase c] else [c]
                      | None => []
                      end) (seq 0 (length name)))
  /\ (forall name : jsstring,
        forallb (fun c => negb (upperUnit c)) (toKebabCase name)
        = forallb (fun i => negb (isUpper name i) || atWordBoundary name i)
            (seq 0 (length name)))
  /\ (forall (σ : store) name attributes rawContents,
        wellTyped σ attributes rawContents = true ->
        exists node σ' children,
          createElement (TagName name) attributes rawContents σ = Some (node, σ')
          /\ σ' !! node = Some (RenderNode (toKebabCase name) attributes children)).
Proof.
  split; [reflexivity|]. split; [reflexivity|].
  split; [exact toKebabCase_pieces|]. split; [exact toKebabCase_lower|].
  intros σ name attributes rawContents Hwt.
  destruct (createElement_cases σ attributes rawContents Hwt)
    as [(flat & _ & _ & _ & Hcall)|(a & props & -> & _ & _ & Hcall)].
  - exists (length σ), (σ ++ [RenderNode (toKebabCase name) attributes flat]), flat.
    split; [rewrite Hcall; reflexivity|]. apply list_lookup_middle. reflexivity.
  - exists (length (hatchStore σ a props)),
      (hatchStore σ a props
       ++ [RenderNode (toKebabCase name) (Some a) [CNode (length σ)]]),
      [CNode (length σ)].
    split; [rewrite Hcall; reflexivity|]. apply list_lookup_middle. reflexivity.
Qed.

Lemma toKebabCase_tagName_witness :
  wellTyped [AttributesObject [(js "tabIndex", ANumber (js "0"))]] (Some 0%nat)
    [Prim (PString (js "x"))] = true
  /\ exists node σ' children,
       createElement (TagName (js "XButton")) (Some 0%nat) [Prim (PString (js "x"))]
         [AttributesObject [(js "tabIndex", ANumber (js "0"))]]
       = Some (node, σ')
       /\ σ' !! node
          = Some (RenderNode (toKebabCase (js "XButton")) (Some 0%nat) children).
Proof.
  split; [reflexivity|].
  apply (proj2 (proj2 (proj2 (proj2 toKebabCase_tagName)))). reflexivity.
Defined.

(** ** Escaper *)

(** C7: the attribute-value escape replaces, in one pass over the value,
    each ampersand by the amp entity, each double quote by the quot entity
    and each non-breaking space by the nbsp entity, and copies every other
    unit; the text it produces is not scanned again. *)
Theorem escapeAttrNodeValue_single_pass :
  (forall value,
      escapeAttrNodeValue value
      = flat_map (fun u =>
                    if u =? ampersand then js "&amp;"
                    else if u =? dquote then js "&quot;"
                    else if u =? nbsp then js "&nbsp;"
                    else [u]) value)
  /\ (forall s t,
        escapeAttrNodeValue (s ++ t) = escapeAttrNodeValue s ++ escapeAttrNodeValue t)
  /\ escapeAttrNodeValue (js "5 & 6 " ++ [dquote; nbsp] ++ js "<>")
     = js "5 &amp; 6 &quot;&nbsp;<>"
  /\ escapeAttrNodeValue (js "&amp;") = js "&amp;amp;".
Proof.
  split; [exact escapeAttrNodeValue_units|].
  split; [intros s t; apply flat_map_app|].
  split; reflexivity.
Qed.

(** C6: the text-content escape is four replacement passes with the
    ampersand first, so each of the four characters is replaced by its
    entity once and the ampersands of the entities are not escaped again;
    the flattener applies it to the string conversion of every content
    value that is neither a node nor an array, at whatever depth and
    position the value stands: a primitive becomes the escaped text of its
    conversion, an object the escaped text of the inherited toString; an
    object whose toString is hidden by an own property has no conversion,
    and the flattener throws. *)
Theorem escapeContent_ampersand_first :
  (forall text,
      escapeContent text
      = replaceAll dquote (js "&quot;")
          (replaceAll greaterThan (js "&gt;")
             (replaceAll lessThan (js "&lt;")
                (replaceAll ampersand (js "&amp;") text))))
  /\ (forall text,
        escapeContent text
        = flat_map (fun u =>
                      if u =? ampersand then js "&amp;"
                      else if u =? lessThan then js "&lt;"
                      else if u =? greaterThan then js "&gt;"
                      else if u =? dquote then js "&quot;"
                      else [u]) text)
  /\ escapeContent (js "&<>" ++ [dquote]) = js "&amp;&lt;&gt;&quot;"
  /\ (forall (σ : store) contents,
        forallb (flattenable σ) contents = true ->
        exists flat,
          flattenContents contents σ = Some (flat, σ)
          /\ forall i leaf,
              flat_map leaves contents !! i = Some leaf ->
              match leaf with
              | Prim p =>
                  flat !! i = Some (CString (escapeContent (Primitive_toString p)))
              | Ref l =>
                  forall props,
                    σ !! l = Some (AttributesObject props) ->
                    flat !! i = Some (CString (escapeContent (js "[object Object]")))
              | Arr _ _ => False
              end)
  /\ (forall (σ : store) l props before after,
        σ !! l = Some (AttributesObject props) ->
        In (js "toString") (keys props) ->
        flattenContents (before ++ Ref l :: after) σ = None).
Proof.
  split; [reflexivity|]. split; [exact escapeContent_units|].
  split; [reflexivity|]. split.
  - intros σ contents H.
    destruct (flattenContents_flattensTo _ _ H) as (flat & Hflat & Hleaves).
    exists flat. split; [exact Hflat|]. intros i leaf Hi.
    destruct (Forall2_lookup_l _ _ _ _ _ Hleaves Hi) as (item & Hitem & Hleaf).
    destruct Hleaf as [l contents' Hl|l tagName attributes children Hl|l props Hl Hown|p].
    + intros props Hprops. congruence.
    + intros props Hprops. congruence.
    + intros _ _. exact Hitem.
    + exact Hitem.
  - intros σ l props before after Hl Hin.
    apply flattenContents_throws with (props := props); [exact Hl|].
    unfold ownToString. apply existsb_exists.
    apply in_map_iff in Hin as ([k v] & Hk & Hkv).
    exists (k, v). split; [exact Hkv|]. apply bool_decide_eq_true. exact Hk.
Qed.

Lemma escapeContent_ampersand_first_witness :
  forallb (flattenable [AttributesObject [(js "id", AString (js "a"))];
                        ArrayObject [VPrimitive (PString (js "a<b")); VObject 0%nat]])
    [Prim (PNumber (js "1"));
     Arr 1%nat [Prim (PString (js "a<b")); Ref 0%nat]] = true
  /\ (exists flat,
         flattenContents
           [Prim (PNumber (js "1")); Arr 1%nat [Prim (PString (js "a<b")); Ref 0%nat]]
           [AttributesObject [(js "id", AString (js "a"))];
            ArrayObject [VPrimitive (PString (js "a<b")); VObject 0%nat]]
         = Some (flat, [AttributesObject [(js "id", AString (js "a"))];
                        ArrayObject [VPrimitive (PString (js "a<b")); VObject 0%nat]])
         /\ forall i leaf,
             flat_map leaves
               [Prim (PNumber (js "1")); Arr 1%nat [Prim (PString (js "a<b")); Ref 0%nat]]
             !! i = Some leaf ->
             match leaf with
             | Prim p =>
                 flat !! i = Some (CString (escapeContent (Primitive_toString p)))
             | Ref l =>
                 forall props,
                   [AttributesObject [(js "id", AString (js "a"))];
                    ArrayObject [VPrimitive (PString (js "a<b")); VObject 0%nat]] !! l
                   = Some (AttributesObject props) ->
                   flat !! i = Some (CString (escapeContent (js "[object Object]")))
             | Arr _ _ => False
             end)
  /\ [AttributesObject [(js "toString", AString (js "x"))]] !! 0%nat
     = Some (AttributesObject [(js "toString", AString (js "x"))])
  /\ In (js "toString") (keys [(js "toString", AString (js "x"))])
  /\ flattenContents ([Prim (PString (js "a"))] ++ Ref 0%nat :: [])
       [AttributesObject [(js "toString", AString (js "x"))]] = None.
Proof.
  assert (Hin : In (js "toString") (keys [(js "toString", AString (js "x"))]))
    by (left; reflexivity).
  split; [reflexivity|].
  split; [apply (proj1 (proj2 (proj2 (proj2 escapeContent_ampersand_first))));
          reflexivity|].
  split; [reflexivity|]. split; [exact Hin|].
  exact (proj2 (proj2 (proj2 (proj2 escapeContent_ampersand_first)))
           [AttributesObject [(js "toString", AString (js "x"))]] 0%nat
           [(js "toString", AString (js "x"))] [Prim (PString (js "a"))] []
           eq_refl Hin).
Defined.

(** ** Rendering *)

Lemma indexOf_lower_bound (l : list jsstring) x : (-1 <= indexOf l x)%Z.
Proof.
  induction l as [|y l IH]; simpl; [lia|].
  destruct (bool_decide (y = x)); [lia|].
  destruct (indexOf l x <? 0)%Z eqn:E; [lia|]. apply Z.ltb_ge in E. lia.
Qed.

Lemma indexOf_In (l : list jsstring) x : (-1 <? indexOf l x)%Z = true <-> In x l.
Proof.
  induction l as [|y l IH]; simpl.
  - split; [discriminate|tauto].
  - destruct (bool_decide_reflect (y = x)) as [->|Hne].
    + split; [auto|reflexivity].
    + pose proof (indexOf_lower_bound l x) as Hlow.
      destruct (indexOf l x <? 0)%Z eqn:E.
      * apply Z.ltb_lt in E. split; [discriminate|].
        intros [Hy|Hin]; [congruence|].
        apply IH in Hin. apply Z.ltb_lt in Hin. lia.
      * apply Z.ltb_ge in E. split.
        -- intros _. right. apply IH. apply Z.ltb_lt. lia.
        -- intros _. apply Z.ltb_lt. lia.
Qed.

Lemma isVoidElement_In tagName : isVoidElement tagName = true <-> In tagName voidElements.
Proof. apply indexOf_In. Qed.

(** C2, as stated, fails: an img element built with a child has a
    non-empty children sequence, so it is rendered with the child and a
    closing tag. *)
Lemma void_element_with_child_counterexample :
  In (js "img") voidElements
  /\ createElement (TagName (js "img")) None [Prim (PString (js "x"))] []
     = Some (0%nat, [RenderNode (js "img") None [CString (js "x")]])
  /\ toString 1 [RenderNode (js "img") None [CString (js "x")]] 0
     = Some (js "<img>x</img>")
  /\ toString 1 [RenderNode (js "img") None [CString (js "x")]] 0
     <> Some (js "<img>").
Proof.
  split; [apply isVoidElement_In; reflexivity|].
  split; [reflexivity|]. split; [reflexivity|discriminate].
Qed.

(** C2, amended: a RenderNode whose tagName is in the void-element set
    and whose children sequence is empty is rendered as the opening tag with
    its attributes and no closing tag; when it has children the void status
    changes nothing, and it is rendered as the opening tag, the texts of the
    children in order and the closing tag, so img built with the child x is
    rendered with that child between an opening and a closing img tag. *)
Theorem void_element_rendering (σ : store) l tagName attributes children attrs fuel :
  σ !! l = Some (RenderNode tagName attributes children) ->
  In tagName voidElements ->
  attributesToString σ attributes = Some attrs ->
  (children = [] ->
   toString (S fuel) σ l = Some (js "<" ++ tagName ++ attrs ++ js ">"))
  /\ (forall texts,
        children <> [] ->
        mapM (childText σ fuel) children = Some texts ->
        toString (S fuel) σ l
        = Some (js "<" ++ tagName ++ attrs ++ js ">" ++ concat texts
                ++ js "</" ++ tagName ++ js ">")).
Proof.
  intros Hl Hvoid Hattrs. apply isVoidElement_In in Hvoid.
  rewrite (toString_RenderNode _ _ _ _ _ _ Hl). split.
  - intros ->. apply RenderNode_toString_childless; assumption.
  - intros texts Hne Htexts. apply RenderNode_toString_children; assumption.
Qed.

Lemma void_element_rendering_witness :
  [RenderNode (js "img") None [CString (js "x")]] !! 0%nat
  = Some (RenderNode (js "img") None [CString (js "x")])
  /\ In (js "img") voidElements
  /\ attributesToString [RenderNode (js "img") None [CString (js "x")]] None = Some []
  /\ [CString (js "x")] <> @nil ContentType
  /\ mapM (childText [RenderNode (js "img") None [CString (js "x")]] 0)
       [CString (js "x")] = Some [js "x"]
  /\ toString 1 [RenderNode (js "img") None [CString (js "x")]] 0
     = Some (js "<" ++ js "img" ++ [] ++ js ">" ++ concat [js "x"]
             ++ js "</" ++ js "img" ++ js ">").
Proof.
  assert (Hvoid : In (js "img") voidElements) by (apply isVoidElement_In; reflexivity).
  split; [reflexivity|]. split; [exact Hvoid|]. split; [reflexivity|].
  split; [discriminate|]. split; [reflexivity|].
  apply (proj2 (void_element_rendering
                  [RenderNode (js "img") None [CString (js "x")]] 0%nat (js "img")
                  None [CString (js "x")] [] 0%nat eq_refl Hvoid eq_refl)
           [js "x"]); [discriminate|reflexivity].
Defined.

(** C4, as stated, fails: with disabled false the attribute is omitted,
    but the attribute block of an attributes object always starts with a
    space, which stays inside the tag. *)
Lemma false_boolean_attribute_counterexample :
  createElement (TagName (js "input")) (Some 0%nat) []
    [AttributesObject [(js "disabled", ABoolean false)]]
  = Some (1%nat, [AttributesObject [(js "disabled", ABoolean false)];
                  RenderNode (js "input") (Some 0%nat) []])
  /\ toString 1 [AttributesObject [(js "disabled", ABoolean false)];
                 RenderNode (js "input") (Some 0%nat) []] 1
     = Some (js "<input >")
  /\ toString 1 [AttributesObject [(js "disabled", ABoolean false)];
                 RenderNode (js "input") (Some 0%nat) []] 1
     <> Some (js "<input>").
Proof. split; [reflexivity|]. split; [reflexivity|discriminate]. Qed.

Lemma getProperty_app_l (props more : Attributes) name :
  In name (keys props) -> getProperty (props ++ more) name = getProperty props name.
Proof.
  induction props as [|[k v] props IH]; simpl; [tauto|].
  intros [->|Hin].
  - rewrite bool_decide_true; reflexivity.
  - destruct (bool_decide (k = name)); [reflexivity|]. apply IH. exact Hin.
Qed.

Lemma getProperty_app_r (props more : Attributes) name :
  ~ In name (keys props) -> getProperty (props ++ more) name = getProperty more name.
Proof.
  induction props as [|[k v] props IH]; simpl; [reflexivity|].
  intros Hnot. rewrite bool_decide_false; [|intuition]. apply IH. intuition.
Qed.

Lemma filter_map_ext_in {A} (f g : A -> jsstring) (l : list A) :
  (forall a, In a l -> f a = g a) ->
  List.filter nonEmpty (map f l) = List.filter nonEmpty (map g l).
Proof. intros H. f_equal. apply map_ext_in. exact H. Qed.

(** A false boolean property added to an attributes object adds nothing
    to its attribute block. *)
Lemma serialized_false_boolean (props : Attributes) name :
  ~ In name (keys props) ->
  serialized (props ++ [(name, ABoolean false)]) = serialized props.
Proof.
  intros Hnot. unfold serialized, keys. rewrite !List.map_app, List.filter_app.
  simpl. unfold attributeToString at 2.
  rewrite (getProperty_app_r _ _ _ Hnot). simpl.
  rewrite bool_decide_true by reflexivity. simpl. rewrite app_nil_r.
  do 2 f_equal. apply filter_map_ext_in. intros k Hk.
  unfold attributeToString. rewrite (getProperty_app_l _ _ _ Hk). reflexivity.
Qed.

(** C4, amended: for a boolean attribute value, attributeToString gives
    the bare transformed name when the value is true and the empty string
    when it is false, and the empty string is left out of the attribute
    block, separator included; the block itself still starts with its
    space.  So input with disabled true is rendered as the tag input
    disabled, and input with disabled false as the tag input followed by
    one space. *)
Theorem boolean_attribute :
  (forall (attributes : Attributes) name b,
      getProperty attributes name = ABoolean b ->
      attributeToString attributes name = if b then toKebabCase name else [])
  /\ (forall (props : Attributes) name,
        ~ In name (keys props) ->
        serialized (props ++ [(name, ABoolean false)]) = serialized props)
  /\ (createElement (TagName (js "input")) (Some 0%nat) []
        [AttributesObject [(js "disabled", ABoolean true)]]
      = Some (1%nat, [AttributesObject [(js "disabled", ABoolean true)];
                      RenderNode (js "input") (Some 0%nat) []])
      /\ forall fuel,
          toString (S fuel) [AttributesObject [(js "disabled", ABoolean true)];
                             RenderNode (js "input") (Some 0%nat) []] 1
          = Some (js "<input disabled>"))
  /\ (createElement (TagName (js "input")) (Some 0%nat) []
        [AttributesObject [(js "disabled", ABoolean false)]]
      = Some (1%nat, [AttributesObject [(js "disabled", ABoolean false)];
                      RenderNode (js "input") (Some 0%nat) []])
      /\ forall fuel,
          toString (S fuel) [AttributesObject [(js "disabled", ABoolean false)];
                             RenderNode (js "input") (Some 0%nat) []] 1
          = Some (js "<input >")).
Proof.
  split.
  { intros attributes name b H. unfold attributeToString. rewrite H. reflexivity. }
  split; [exact serialized_false_boolean|].
  split; (split; [reflexivity|intros fuel; reflexivity]).
Qed.

Lemma boolean_attribute_witness :
  getProperty [(js "ariaHidden", ABoolean true)] (js "ariaHidden") = ABoolean true
  /\ attributeToString [(js "ariaHidden", ABoolean true)] (js "ariaHidden")
     = toKebabCase (js "ariaHidden")
  /\ ~ In (js "hidden") (keys [(js "id", AString (js "a"))])
  /\ serialized ([(js "id", AString (js "a"))] ++ [(js "hidden", ABoolean false)])
     = serialized [(js "id", AString (js "a"))].
Proof.
  assert (Hnot : ~ In (js "hidden") (keys [(js "id", AString (js "a"))])).
  { simpl. intros [H|[]]. discriminate H. }
  split; [reflexivity|].
  split; [apply (proj1 boolean_attribute _ _ true); reflexivity|].
  split; [exact Hnot|].
  apply (proj1 (proj2 boolean_attribute)). exact Hnot.
Defined.

(** ** Content flattener *)



(** ** Tree builder *)

(** C1, as stated, fails: an attributes object that contains the key
    with the empty string as its value does not trigger the escape hatch;
    the child is kept, the key stays in the object and is serialized. *)
Lemma escape_hatch_empty_string_counterexample :
  In dangerousInnerHtml (keys [(dangerousInnerHtml, AString [])])
  /\ createElement (TagName (js "div")) (Some 0%nat) [Prim (PString (js "x"))]
       [AttributesObject [(dangerousInnerHtml, AString [])]]
     = Some (1%nat, [AttributesObject [(dangerousInnerHtml, AString [])];
                     RenderNode (js "div") (Some 0%nat) [CString (js "x")]])
  /\ toString 1 [AttributesObject [(dangerousInnerHtml, AString [])];
                 RenderNode (js "div") (Some 0%nat) [CString (js "x")]] 1
     = Some (js "<div dangerous-inner-html=" ++ [dquote; dquote] ++ js ">x</div>").
Proof. split; [left; reflexivity|]. split; reflexivity. Qed.

(** C1, amended: for every call to createElement whose attributes object
    binds dangerousInnerHtml to a value that is true in a condition, the
    children argument list is discarded and replaced by a single new
    TextNode that wraps the string conversion of that value, the key is
    deleted from the attributes object, a handler receives exactly that one
    node, and an element is rendered with that text verbatim between its
    tags and with the attribute block of the other attributes, in which the
    key does not appear. *)
Theorem escape_hatch (σ : store) a props rawContents :
  σ !! a = Some (AttributesObject props) ->
  truthy (getProperty props dangerousInnerHtml) = true ->
  let html := concatString (getProperty props dangerousInnerHtml) in
  let props' := deleteProperty props dangerousInnerHtml in
  let text := length σ in
  let σ1 := <[a := AttributesObject props']> σ ++ [TextNode html] in
  (forall handler,
      createElement (Handler handler) (Some a) rawContents σ
      = handler (Some a) [CNode text] σ1)
  /\ (forall name,
        let σ' := σ1 ++ [RenderNode (toKebabCase name) (Some a) [CNode text]] in
        createElement (TagName name) (Some a) rawContents σ = Some (S (length σ), σ')
        /\ forall fuel,
            toString (S (S fuel)) σ' (S (length σ))
            = Some (js "<" ++ toKebabCase name ++ serialized props' ++ js ">"
                    ++ html ++ js "</" ++ toKebabCase name ++ js ">"))
  /\ σ1 !! text = Some (TextNode html)
  /\ σ1 !! a = Some (AttributesObject props')
  /\ ~ In dangerousInnerHtml (keys props')
  /\ serialized props'
     = js " " ++ join (js " ")
         (List.filter nonEmpty
            (map (attributeToString props)
               (List.filter (fun k => negb (bool_decide (k = dangerousInnerHtml)))
                  (keys props)))).
Proof.
  intros Ha Htruthy html props' text σ1.
  change σ1 with (hatchStore σ a props).
  assert (Ha1 : hatchStore σ a props !! a = Some (AttributesObject props'))
    by exact (hatchStore_lookup_attributes _ _ _ Ha).
  assert (Htext : hatchStore σ a props !! text = Some (TextNode html))
    by apply hatchStore_lookup_text.
  split.
  { intros handler. apply (createElement_hatch _ _ _ Ha (Handler handler) _ Htruthy). }
  split.
  { intros name σ'. split.
    - rewrite (createElement_hatch _ _ _ Ha (TagName name) _ Htruthy).
      simpl. unfold alloc. rewrite hatchStore_length. reflexivity.
    - intros fuel.
      assert (Hnode : σ' !! S (length σ)
                      = Some (RenderNode (toKebabCase name) (Some a) [CNode text])).
      { unfold σ'. apply list_lookup_middle. rewrite hatchStore_length. reflexivity. }
      rewrite (toString_RenderNode _ _ _ _ _ _ Hnode).
      rewrite (RenderNode_toString_children _ _ _ _ _ (serialized props') [html]).
      + simpl concat. rewrite app_nil_r. reflexivity.
      + discriminate.
      + apply attributesToString_lookup. unfold σ'.
        rewrite lookup_app_l by (eapply lookup_lt_Some; exact Ha1). exact Ha1.
      + assert (Hchild : toString (S fuel) σ' text = Some html).
        { apply toString_TextNode. unfold σ'.
          rewrite lookup_app_l by (eapply lookup_lt_Some; exact Htext).
          exact Htext. }
        cbn -[toString]. rewrite Hchild. reflexivity. }
  split; [exact Htext|]. split; [exact Ha1|].
  split; [apply not_in_keys_deleteProperty|apply serialized_deleteProperty].
Qed.

Lemma escape_hatch_witness :
  [AttributesObject [(dangerousInnerHtml, AString (js "<b>x</b>"));
                     (js "id", AString (js "a"))]] !! 0%nat
  = Some (AttributesObject [(dangerousInnerHtml, AString (js "<b>x</b>"));
                            (js "id", AString (js "a"))])
  /\ truthy (getProperty [(dangerousInnerHtml, AString (js "<b>x</b>"));
                          (js "id", AString (js "a"))] dangerousInnerHtml) = true
  /\ createElement (TagName (js "div")) (Some 0%nat) [Prim (PString (js "dropped"))]
       [AttributesObject [(dangerousInnerHtml, AString (js "<b>x</b>"));
                          (js "id", AString (js "a"))]]
     = Some (2%nat, [AttributesObject [(js "id", AString (js "a"))];
                     TextNode (js "<b>x</b>");
                     RenderNode (js "div") (Some 0%nat) [CNode 1%nat]])
  /\ toString 2 [AttributesObject [(js "id", AString (js "a"))];
                 TextNode (js "<b>x</b>");
                 RenderNode (js "div") (Some 0%nat) [CNode 1%nat]] 2
     = Some (js "<div id=" ++ [dquote] ++ js "a" ++ [dquote] ++ js "><b>x</b></div>").
Proof.
  split; [reflexivity|]. split; [reflexivity|].
  destruct (escape_hatch
              [AttributesObject [(dangerousInnerHtml, AString (js "<b>x</b>"));
                                 (js "id", AString (js "a"))]]
              0%nat
              [(dangerousInnerHtml, AString (js "<b>x</b>")); (js "id", AString (js "a"))]
              [Prim (PString (js "dropped"))] eq_refl eq_refl)
    as (_ & Hname & _).
  destruct (Hname (js "div")) as [Hcreate Hrender].
  split; [exact Hcreate|exact (Hrender 0%nat)].
Defined.

(** C5: when the attributes object binds dangerousInnerHtml to a value
    that is false in a condition, createElement does not take the escape
    hatch: the children it was given are kept and flattened (a TextNode or
    RenderNode as its reference, any other value as escaped text, in
    order), the attributes object keeps the key and all its properties, and
    the element is rendered with the key in its attribute block like any
    attribute: the block is a space and the non-empty texts of all
    properties, the key among them, joined by spaces.  The text of the key
    is its kebab-case name with an empty quoted value for the empty string,
    with the quoted 0 for the number 0, and the empty text, which is left
    out, for false. *)
Theorem falsy_hatch_is_ordinary_attribute (σ : store) a props rawContents :
  σ !! a = Some (AttributesObject props) ->
  In dangerousInnerHtml (keys props) ->
  truthy (getProperty props dangerousInnerHtml) = false ->
  forallb (flattenable σ) rawContents = true ->
  let block :=
    js " " ++ join (js " ")
                (List.filter (fun text => negb (bool_decide (text = [])))
                   (map (attributeToString props) (keys props))) in
  exists flat,
    Forall2 (flattensTo σ) (flat_map leaves rawContents) flat
    /\ (forall handler,
          createElement (Handler handler) (Some a) rawContents σ
          = handler (Some a) flat σ)
    /\ (forall name,
          let tag := toKebabCase name in
          let σ' := σ ++ [RenderNode tag (Some a) flat] in
          createElement (TagName name) (Some a) rawContents σ = Some (length σ, σ')
          /\ σ' !! a = Some (AttributesObject props)
          /\ forall fuel texts,
              mapM (childText σ fuel) flat = Some texts ->
              (flat <> [] \/ ~ In tag voidElements ->
               toString (S fuel) σ' (length σ)
               = Some (js "<" ++ tag ++ block ++ js ">" ++ concat texts
                       ++ js "</" ++ tag ++ js ">"))
              /\ (flat = [] -> In tag voidElements ->
                  toString (S fuel) σ' (length σ)
                  = Some (js "<" ++ tag ++ block ++ js ">")))
    /\ In (attributeToString props dangerousInnerHtml)
         (map (attributeToString props) (keys props))
    /\ (getProperty props dangerousInnerHtml = AString [] ->
        attributeToString props dangerousInnerHtml
        = js "dangerous-inner-html=" ++ [dquote; dquote])
    /\ (getProperty props dangerousInnerHtml = ANumber (js "0") ->
        attributeToString props dangerousInnerHtml
        = js "dangerous-inner-html=" ++ [dquote] ++ js "0" ++ [dquote])
    /\ (getProperty props dangerousInnerHtml = ABoolean false ->
        attributeToString props dangerousInnerHtml = []).
Proof.
  intros Ha Hin Hfalsy Hraw block.
  destruct (flattenContents_flattensTo _ _ Hraw) as (flat & Hflat & Hleaves).
  assert (Hno : noHatch σ (Some a)) by (exists props; split; assumption).
  exists flat. split; [exact Hleaves|].
  split.
  { intros handler.
    apply (createElement_plain _ (Handler handler) _ _ _ Hno Hflat). }
  split.
  { intros name tag σ'.
    assert (Ha' : σ' !! a = Some (AttributesObject props)).
    { unfold σ'. apply lookup_app_l_Some. exact Ha. }
    assert (Hblock : attributesToString σ' (Some a) = Some block).
    { rewrite (attributesToString_lookup _ _ _ Ha'). unfold serialized, block.
      rewrite filter_nonEmpty. reflexivity. }
    assert (Hnode : σ' !! length σ = Some (RenderNode tag (Some a) flat))
      by (apply list_lookup_middle; reflexivity).
    split; [|split; [exact Ha'|]].
    - rewrite (createElement_plain _ (TagName name) _ _ _ Hno Hflat). reflexivity.
    - intros fuel texts Htexts.
      rewrite (toString_RenderNode _ _ _ _ _ _ Hnode). split.
      + intros Hopen. apply RenderNode_toString_open.
        * destruct Hopen as [Hne|Hvoid]; [left; exact Hne|right].
          destruct (isVoidElement tag) eqn:E; [|reflexivity].
          apply isVoidElement_In in E. contradiction.
        * exact Hblock.
        * eapply mapM_option_mono; [|exact Htexts].
          intros [l|t] y; simpl; [|auto].
          intros H. eapply toString_stable; [exact H|lia].
      + intros -> Hvoid. apply RenderNode_toString_childless; [|exact Hblock].
        apply isVoidElement_In. exact Hvoid. }
  split; [apply in_map; exact Hin|].
  unfold attributeToString.
  split; [|split]; intros ->; reflexivity.
Qed.

Lemma falsy_hatch_is_ordinary_attribute_witness :
  [AttributesObject [(js "id", AString (js "a")); (dangerousInnerHtml, AString [])]]
  !! 0%nat
  = Some (AttributesObject [(js "id", AString (js "a")); (dangerousInnerHtml, AString [])])
  /\ In dangerousInnerHtml
       (keys [(js "id", AString (js "a")); (dangerousInnerHtml, AString [])])
  /\ truthy (getProperty [(js "id", AString (js "a")); (dangerousInnerHtml, AString [])]
               dangerousInnerHtml) = false
  /\ forallb (flattenable
                [AttributesObject [(js "id", AString (js "a"));
                                   (dangerousInnerHtml, AString [])]])
       [Prim (PString (js "x"))] = true
  /\ createElement (TagName (js "div")) (Some 0%nat) [Prim (PString (js "x"))]
       [AttributesObject [(js "id", AString (js "a")); (dangerousInnerHtml, AString [])]]
     = Some (1%nat,
             [AttributesObject [(js "id", AString (js "a"));
                                (dangerousInnerHtml, AString [])];
              RenderNode (js "div") (Some 0%nat) [CString (js "x")]])
  /\ toString 1
       [AttributesObject [(js "id", AString (js "a")); (dangerousInnerHtml, AString [])];
        RenderNode (js "div") (Some 0%nat) [CString (js "x")]] 1
     = Some (js "<div id=" ++ [dquote] ++ js "a" ++ [dquote]
             ++ js " dangerous-inner-html=" ++ [dquote; dquote] ++ js ">x</div>").
Proof.
  assert (Hin : In dangerousInnerHtml
                  (keys [(js "id", AString (js "a")); (dangerousInnerHtml, AString [])]))
    by (right; left; reflexivity).
  split; [reflexivity|]. split; [exact Hin|]. split; [reflexivity|].
  split; [reflexivity|].
  destruct (falsy_hatch_is_ordinary_attribute
              [AttributesObject [(js "id", AString (js "a"));
                                 (dangerousInnerHtml, AString [])]] 0%nat
              [(js "id", AString (js "a")); (dangerousInnerHtml, AString [])]
              [Prim (PString (js "x"))] eq_refl Hin eq_refl eq_refl)
    as (flat & Hleaves & _ & Hname & _).
  assert (Hflat : flat = [CString (js "x")]).
  { simpl in Hleaves. inversion Hleaves as [|leaf item leaves' flat' Hleaf Hrest];
      subst. inversion Hrest; subst. inversion Hleaf; subst. reflexivity. }
  subst flat.
  destruct (Hname (js "div")) as (Hcreate & _ & Hrender).
  split; [exact Hcreate|].
  apply (proj1 (Hrender 0%nat [js "x"] eq_refl)). left. discriminate.
Defined.

(** C9: when createElement is called with a handler as the name, the
    call is one application of the handler to the attributes reference it
    was given and the flattened children: for each final item of the
    children, in order, the reference of a TextNode or RenderNode or the
    escaped text of any other value, or, when the escape hatch is taken,
    the reference of the one new TextNode.  What the handler returns,
    result and store, is what createElement returns. *)
Theorem handler_delegation (σ : store) attributes rawContents :
  wellTyped σ attributes rawContents = true ->
  exists flat σ1,
    (noHatch σ attributes
     /\ σ1 = σ
     /\ Forall2 (flattensTo σ) (flat_map leaves rawContents) flat
     \/ exists a props,
         attributes = Some a
         /\ σ !! a = Some (AttributesObject props)
         /\ truthy (getProperty props dangerousInnerHtml) = true
         /\ σ1 = hatchStore σ a props
         /\ flat = [CNode (length σ)]
         /\ σ1 !! length σ
            = Some (TextNode (concatString (getProperty props dangerousInnerHtml))))
    /\ forall handler : CustomElementHandler,
        createElement (Handler handler) attributes rawContents σ
        = handler attributes flat σ1.
Proof.
  intros Hwt.
  destruct (createElement_cases σ attributes rawContents Hwt)
    as [(flat & Hno & Hflat & Hleaves & Hcall)|(a & props & -> & Ha & Htruthy & Hcall)].
  - exists flat, σ. split.
    + left. split; [exact Hno|]. split; [reflexivity|].
      apply mapM_Some_1 in Hleaves.
      eapply Forall2_impl; [exact Hleaves|]. apply leafResult_flattensTo.
    + intros handler. apply (Hcall (Handler handler)).
  - exists [CNode (length σ)], (hatchStore σ a props). split.
    + right. exists a, props. repeat split; try assumption.
      apply hatchStore_lookup_text.
    + intros handler. apply (Hcall (Handler handler)).
Qed.

Lemma handler_delegation_witness :
  wellTyped [AttributesObject [(js "id", AString (js "a"))];
             TextNode (js "<i>");
             ArrayObject [VPrimitive (PString (js "x<")); VObject 1%nat]]
    (Some 0%nat) [Arr 2%nat [Prim (PString (js "x<")); Ref 1%nat]] = true
  /\ forall handler : CustomElementHandler,
      createElement (Handler handler) (Some 0%nat)
        [Arr 2%nat [Prim (PString (js "x<")); Ref 1%nat]]
        [AttributesObject [(js "id", AString (js "a"))];
         TextNode (js "<i>");
         ArrayObject [VPrimitive (PString (js "x<")); VObject 1%nat]]
      = handler (Some 0%nat) [CString (js "x&lt;"); CNode 1%nat]
          [AttributesObject [(js "id", AString (js "a"))];
           TextNode (js "<i>");
           ArrayObject [VPrimitive (PString (js "x<")); VObject 1%nat]].
Proof.
  split; [reflexivity|].
  destruct (handler_delegation
              [AttributesObject [(js "id", AString (js "a"))];
               TextNode (js "<i>");
               ArrayObject [VPrimitive (PString (js "x<")); VObject 1%nat]]
              (Some 0%nat) [Arr 2%nat [Prim (PString (js "x<")); Ref 1%nat]] eq_refl)
    as (flat & σ1 & Hcases & Hcall).
  destruct Hcases as [(_ & -> & Hleaves)|(a & props & Ha & Hprops & Htruthy & _)].
  - assert (Hflat : flat = [CString (js "x&lt;"); CNode 1%nat]).
    { simpl in Hleaves.
      inversion Hleaves as [|leaf1 item1 leaves1 flat1 Hleaf1 Hrest1]; subst.
      inversion Hrest1 as [|leaf2 item2 leaves2 flat2 Hleaf2 Hrest2]; subst.
      inversion Hrest2; subst. inversion Hleaf1; subst.
      inversion Hleaf2 as [? ? Hl|? ? ? ? Hl|? ? Hl ?|]; subst;
        first [reflexivity | discriminate Hl]. }
    subst flat. exact Hcall.
  - injection Ha as <-. simpl in Hprops. injection Hprops as <-.
    discriminate Htruthy.
Defined.

(** C10: of the objects that exist when createElement is called, the
    call changes at most the attributes object, and that only by deleting
    the dangerousInnerHtml key it had; every other property of it and every
    other object is as before.  The RenderNode constructed is a new object
    and holds the reference to the attributes object it was given. *)
Theorem createElement_only_deletes_hatch (σ : store) attributes rawContents :
  wellTyped σ attributes rawContents = true ->
  (forall name,
      exists node σ' children,
        createElement (TagName name) attributes rawContents σ = Some (node, σ')
        /\ σ !! node = None
        /\ σ' !! node = Some (RenderNode (toKebabCase name) attributes children)
        /\ onlyHatchDeleted σ σ' attributes)
  /\ (exists flat σ1,
        (forall handler : CustomElementHandler,
            createElement (Handler handler) attributes rawContents σ
            = handler attributes flat σ1)
        /\ onlyHatchDeleted σ σ1 attributes).
Proof.
  intros Hwt.
  destruct (createElement_cases σ attributes rawContents Hwt)
    as [(flat & Hno & Hflat & _ & Hcall)|(a & props & -> & Ha & Htruthy & Hcall)].
  - split.
    + intros name.
      exists (length σ), (σ ++ [RenderNode (toKebabCase name) attributes flat]), flat.
      split; [rewrite Hcall; reflexivity|].
      split; [apply lookup_ge_None; lia|].
      split; [apply list_lookup_middle; reflexivity|apply onlyHatchDeleted_plain].
    + exists flat, σ. split; [intros handler; apply (Hcall (Handler handler))|].
      rewrite <- (app_nil_r σ) at 2. apply onlyHatchDeleted_plain.
  - split.
    + intros name.
      exists (length (hatchStore σ a props)),
        (hatchStore σ a props
         ++ [RenderNode (toKebabCase name) (Some a) [CNode (length σ)]]),
        [CNode (length σ)].
      split; [rewrite Hcall; reflexivity|].
      split; [apply lookup_ge_None; rewrite hatchStore_length; lia|].
      split; [apply list_lookup_middle; reflexivity|].
      apply onlyHatchDeleted_hatch; assumption.
    + exists [CNode (length σ)], (hatchStore σ a props).
      split; [intros handler; apply (Hcall (Handler handler))|].
      rewrite <- (app_nil_r (hatchStore σ a props)).
      apply onlyHatchDeleted_hatch; assumption.
Qed.

Lemma createElement_only_deletes_hatch_witness :
  wellTyped [AttributesObject [(js "id", AString (js "a"));
                               (dangerousInnerHtml, AString (js "<b>x</b>"));
                               (js "hidden", ABoolean true)];
             TextNode (js "kept")]
    (Some 0%nat) [Ref 1%nat] = true
  /\ exists node σ' children,
       createElement (TagName (js "div")) (Some 0%nat) [Ref 1%nat]
         [AttributesObject [(js "id", AString (js "a"));
                            (dangerousInnerHtml, AString (js "<b>x</b>"));
                            (js "hidden", ABoolean true)];
          TextNode (js "kept")]
       = Some (node, σ')
       /\ [AttributesObject [(js "id", AString (js "a"));
                             (dangerousInnerHtml, AString (js "<b>x</b>"));
                             (js "hidden", ABoolean true)];
           TextNode (js "kept")] !! node = None
       /\ σ' !! node = Some (RenderNode (toKebabCase (js "div")) (Some 0%nat) children)
       /\ onlyHatchDeleted
            [AttributesObject [(js "id", AString (js "a"));
                               (dangerousInnerHtml, AString (js "<b>x</b>"));
                               (js "hidden", ABoolean true)];
             TextNode (js "kept")]
            σ' (Some 0%nat).
Proof.
  split; [reflexivity|].
  apply (proj1 (createElement_only_deletes_hatch
                  [AttributesObject [(js "id", AString (js "a"));
                                     (dangerousInnerHtml, AString (js "<b>x</b>"));
                                     (js "hidden", ABoolean true)];
                   TextNode (js "kept")]
                  (Some 0%nat) [Ref 1%nat] eq_refl) (js "div")).
Defined.

(** * Further properties *)

(** ** Name transformer *)

Lemma flat_map_ext_in {A B} (f g : A -> list B) (l : list A) :
  (forall a, In a l -> f a = g a) -> flat_map f l = flat_map g l.
Proof.
  induction l as [|a l IH]; simpl; intros H; [reflexivity|].
  rewrite (H a), IH; auto.
Qed.

Lemma flat_map_indices_from {B} (h : N -> list B) (pre s : jsstring) :
  flat_map (fun i => match (pre ++ s) !! i with
                     | Some c => h c
                     | None => []
                     end) (seq (length pre) (length s))
  = flat_map h s.
Proof.
  revert pre. induction s as [|c s IH]; intros pre; simpl; [reflexivity|].
  rewrite list_lookup_middle by reflexivity. f_equal.
  specialize (IH (pre ++ [c])).
  rewrite length_app, Nat.add_1_r, <- app_assoc in IH. exact IH.
Qed.

Lemma flat_map_indices {B} (h : N -> list B) (s : jsstring) :
  flat_map (fun i => match s !! i with
                     | Some c => h c
                     | None => []
                     end) (seq 0 (length s))
  = flat_map h s.
Proof. exact (flat_map_indices_from h [] s). Qed.

Lemma flat_map_singleton {A} (l : list A) : flat_map (fun a => [a]) l = l.
Proof. induction l as [|a l IH]; simpl; [reflexivity|]. f_equal. exact IH. Qed.

Lemma atWordBoundary_upper (s : jsstring) i c :
  s !! i = Some c -> atWordBoundary s i = true -> upperUnit c = true.
Proof.
  intros Hc Hb. unfold atWordBoundary in Hb.
  apply andb_true_iff in Hb as [Hb _].
  rewrite (isUpper_lookup _ _ _ Hc) in Hb. exact Hb.
Qed.

Lemma kebabPiece_length (s : jsstring) i :
  (i < length s)%nat ->
  length (kebabPiece s i) = if atWordBoundary s i then 2%nat else 1%nat.
Proof.
  intros Hi. unfold kebabPiece.
  destruct (lookup_lt_is_Some_2 s i Hi) as [c ->].
  destruct (atWordBoundary s i); reflexivity.
Qed.

Lemma kebabPieces_length (s : jsstring) (idx : list nat) :
  Forall (fun i => (i < length s)%nat) idx ->
  length (flat_map (kebabPiece s) idx)
  = (length idx + length (List.filter (atWordBoundary s) idx))%nat.
Proof.
  induction 1 as [|i idx Hi _ IH]; simpl; [reflexivity|].
  rewrite length_app, IH, (kebabPiece_length _ _ Hi).
  destruct (atWordBoundary s i); simpl; lia.
Qed.

Lemma seq_below (n : nat) : Forall (fun i => (i < n)%nat) (seq 0 n).
Proof. apply List.Forall_forall. intros i Hi. apply in_seq in Hi. lia. Qed.

Lemma toKebabCase_length_exact (s : jsstring) :
  length (toKebabCase s)
  = (length s + length (List.filter (atWordBoundary s) (seq 0 (length s))))%nat.
Proof.
  rewrite toKebabCase_pieces, (kebabPieces_length s _ (seq_below _)), length_seq.
  reflexivity.
Qed.

Lemma toKebabCase_fixed_no_boundary (s : jsstring) :
  List.filter (atWordBoundary s) (seq 0 (length s)) = [] -> toKebabCase s = s.
Proof.
  intros Hnone. rewrite toKebabCase_pieces.
  rewrite <- (flat_map_singleton s) at 3.
  rewrite <- (flat_map_indices (fun c => [c]) s).
  apply flat_map_ext_in. intros i Hi. unfold kebabPiece.
  destruct (s !! i) as [c|]; [|reflexivity].
  destruct (atWordBoundary s i) eqn:Hb; [|reflexivity].
  assert (Hin : In i (List.filter (atWordBoundary s) (seq 0 (length s))))
    by (apply filter_In; split; assumption).
  rewrite Hnone in Hin. destruct Hin.
Qed.

Lemma filter_nil_forallb {A} (p : A -> bool) (l : list A) :
  List.filter p l = [] <-> forallb (fun a => negb (p a)) l = true.
Proof.
  induction l as [|a l IH]; simpl; [tauto|].
  destruct (p a); simpl; [split; discriminate|exact IH].
Qed.

(** X1: the names that toKebabCase returns unchanged are exactly those without
    an upper-case letter at a word boundary: all-lower-case and hyphenated
    names, and also runs of capitals such as ID. *)
Theorem toKebabCase_fixed_points (s : jsstring) :
  bool_decide (toKebabCase s = s)
  = forallb (fun i => negb (atWordBoundary s i)) (seq 0 (length s)).
Proof.
  destruct (forallb _ _) eqn:Hall.
  - apply bool_decide_eq_true. apply filter_nil_forallb in Hall.
    apply toKebabCase_fixed_no_boundary. exact Hall.
  - apply bool_decide_eq_false. intros Heq.
    pose proof (toKebabCase_length_exact s) as Hlen. rewrite Heq in Hlen.
    assert (Hnil : List.filter (atWordBoundary s) (seq 0 (length s)) = []).
    { destruct (List.filter _ _); [reflexivity|simpl in Hlen; lia]. }
    apply filter_nil_forallb in Hnil. congruence.
Qed.

(** X2: the result is longer than the name by one unit, the hyphen, for each
    upper-case letter at a word boundary; no unit is ever dropped. *)
Theorem toKebabCase_length (s : jsstring) :
  length (toKebabCase s)
  = (length s + length (List.filter (atWordBoundary s) (seq 0 (length s))))%nat
  /\ (length s <= length (toKebabCase s) <= 2 * length s)%nat.
Proof.
  pose proof (toKebabCase_length_exact s) as Hlen. split; [exact Hlen|].
  pose proof (filter_length_le (atWordBoundary s) (seq 0 (length s))) as Hle.
  rewrite length_seq in Hle. lia.
Qed.

(** X3: a capitalised name gets a leading hyphen: when the first unit is an
    upper-case letter and the second is not, the result starts with a
    hyphen, the lower-case letter and the second unit. *)
Theorem toKebabCase_leading_capital (c d : N) (rest : jsstring) :
  upperUnit c = true ->
  upperUnit d = false ->
  exists tail, toKebabCase (c :: d :: rest) = hyphen :: toLowerCase c :: d :: tail.
Proof.
  intros Hc Hd. rewrite toKebabCase_pieces.
  exists (flat_map (kebabPiece (c :: d :: rest)) (seq 2 (length rest))).
  change (seq 0 (length (c :: d :: rest))) with (0%nat :: 1%nat :: seq 2 (length rest)).
  cbn [flat_map].
  assert (H0 : kebabPiece (c :: d :: rest) 0 = [hyphen; toLowerCase c]).
  { unfold kebabPiece, atWordBoundary, isUpper, charCodeAt. cbn.
    fold (upperUnit c). fold (upperUnit d). rewrite Hc, Hd. reflexivity. }
  assert (H1 : kebabPiece (c :: d :: rest) 1 = [d]).
  { unfold kebabPiece, atWordBoundary, isUpper, charCodeAt. cbn.
    fold (upperUnit d). rewrite Hd. reflexivity. }
  rewrite H0, H1. reflexivity.
Qed.

Lemma toKebabCase_leading_capital_witness :
  upperUnit 68 = true
  /\ upperUnit 105 = false
  /\ exists tail, toKebabCase (js "Div") = hyphen :: toLowerCase 68 :: 105 :: tail.
Proof.
  split; [reflexivity|]. split; [reflexivity|].
  apply (toKebabCase_leading_capital 68 105 [118]); reflexivity.
Defined.

Lemma toLowerCase_caseless (c : N) :
  upperUnit c = true -> caseless [hyphen; toLowerCase c] = caseless [c].
Proof.
  intros Hc.
  assert (Hl : toLowerCase c = c + 32).
  { unfold toLowerCase. fold (upperUnit c). rewrite Hc. reflexivity. }
  assert (Hbounds : 65 <= c <= 90).
  { unfold upperUnit, capitalACharCode, capitalZCharCode in Hc.
    apply andb_true_iff in Hc as [H1 H2]. apply N.leb_le in H1, H2. lia. }
  assert (Hll : toLowerCase (c + 32) = c + 32).
  { unfold toLowerCase, capitalACharCode, capitalZCharCode.
    destruct (_ && _) eqn:E; [|reflexivity].
    apply andb_true_iff in E as [E1 E2]. apply N.leb_le in E1, E2. lia. }
  unfold caseless. cbn [List.filter]. rewrite Hl.
  replace (hyphen =? hyphen) with true by reflexivity. cbn [negb].
  destruct (N.eqb_spec (c + 32) hyphen) as [E|_]; [unfold hyphen in E; lia|].
  destruct (N.eqb_spec c hyphen) as [E|_]; [unfold hyphen in E; lia|].
  cbn [negb map]. rewrite Hll, Hl. reflexivity.
Qed.

Lemma caseless_flat_map {A} (f : A -> jsstring) (l : list A) :
  caseless (flat_map f l) = flat_map (fun a => caseless (f a)) l.
Proof.
  induction l as [|a l IH]; simpl; [reflexivity|].
  unfold caseless in *. rewrite List.filter_app, List.map_app, IH. reflexivity.
Qed.

(** X4: toKebabCase changes nothing but the case of letters and the hyphens:
    with hyphens removed and letters lowered, the result and the name are
    the same. *)
Theorem toKebabCase_caseless (s : jsstring) :
  caseless (toKebabCase s) = caseless s.
Proof.
  rewrite toKebabCase_pieces, caseless_flat_map.
  transitivity (flat_map (fun c => caseless [c]) s).
  - rewrite <- (flat_map_indices (fun c => caseless [c]) s).
    apply flat_map_ext_in. intros i _. unfold kebabPiece.
    destruct (s !! i) as [c|] eqn:Hc; [|reflexivity].
    destruct (atWordBoundary s i) eqn:Hb; [|reflexivity].
    apply toLowerCase_caseless. eapply atWordBoundary_upper; eassumption.
  - rewrite <- caseless_flat_map, flat_map_singleton. reflexivity.
Qed.

Lemma no_upper_no_boundary (s : jsstring) :
  forallb (fun c => negb (upperUnit c)) s = true ->
  List.filter (atWordBoundary s) (seq 0 (length s)) = [].
Proof.
  intros Hlow. apply filter_nil_forallb. apply forallb_forall. intros i _.
  destruct (atWordBoundary s i) eqn:Hb; [|reflexivity].
  unfold atWordBoundary in Hb. apply andb_true_iff in Hb as [Hup _].
  unfold isUpper, charCodeAt in Hup.
  destruct (s !! i) as [c|] eqn:Hc; [|discriminate].
  apply list_elem_of_lookup_2, list_elem_of_In in Hc.
  rewrite forallb_forall in Hlow. specialize (Hlow c Hc).
  unfold upperUnit in Hlow. rewrite Hup in Hlow. discriminate.
Qed.

(** X5: when every upper-case letter of a name stands at a word boundary, the
    result is in kebab case for good: transforming it again changes
    nothing. *)
Theorem toKebabCase_idempotent (s : jsstring) :
  forallb (fun i => negb (isUpper s i) || atWordBoundary s i) (seq 0 (length s)) = true ->
  toKebabCase (toKebabCase s) = toKebabCase s.
Proof.
  intros H. apply toKebabCase_fixed_no_boundary, no_upper_no_boundary.
  rewrite toKebabCase_lower. exact H.
Qed.

Lemma toKebabCase_idempotent_witness :
  forallb (fun i => negb (isUpper (js "ariaLabelledBy") i)
                    || atWordBoundary (js "ariaLabelledBy") i)
    (seq 0 (length (js "ariaLabelledBy"))) = true
  /\ toKebabCase (toKebabCase (js "ariaLabelledBy")) = toKebabCase (js "ariaLabelledBy").
Proof.
  split; [reflexivity|]. apply toKebabCase_idempotent. reflexivity.
Defined.

(** ** Escaper *)

Lemma contentEscapeUnit_markupFree (u : N) : markupFree (contentEscapeUnit u) = true.
Proof.
  unfold contentEscapeUnit.
  destruct (u =? ampersand); [reflexivity|].
  destruct (u =? lessThan) eqn:E1; [reflexivity|].
  destruct (u =? greaterThan) eqn:E2; [reflexivity|].
  destruct (u =? dquote) eqn:E3; [reflexivity|].
  simpl. rewrite E1, E2, E3. reflexivity.
Qed.

Lemma attrEscapeUnit_quoteFree (u : N) : quoteFree (attrEscapeUnit u) = true.
Proof.
  unfold attrEscapeUnit.
  destruct (u =? ampersand); [reflexivity|].
  destruct (u =? dquote) eqn:E1; [reflexivity|].
  destruct (u =? nbsp) eqn:E2; [reflexivity|].
  simpl. rewrite E1, E2. reflexivity.
Qed.

Lemma escapeContent_markupFree (text : jsstring) :
  markupFree (escapeContent text) = true.
Proof.
  rewrite escapeContent_units. unfold markupFree. rewrite forallb_flat_map.
  apply forallb_forall. intros u _. apply contentEscapeUnit_markupFree.
Qed.

(** X6: the escaped text of a content value holds no angle bracket and no
    double quote, whatever the value: a text child cannot open or close a
    tag. *)
Theorem escapeContent_never_markup (text : jsstring) :
  markupFree (escapeContent text) = true
  /\ ~ In lessThan (escapeContent text)
  /\ ~ In greaterThan (escapeContent text)
  /\ ~ In dquote (escapeContent text).
Proof.
  pose proof (escapeContent_markupFree text) as H. split; [exact H|].
  unfold markupFree in H. rewrite forallb_forall in H.
  repeat split; intros Hin; specialize (H _ Hin); discriminate H.
Qed.

Lemma escapeContent_never_markup_witness :
  markupFree (escapeContent (js "<a href=x>&</a>")) = true
  /\ ~ In lessThan (escapeContent (js "<a href=x>&</a>"))
  /\ ~ In greaterThan (escapeContent (js "<a href=x>&</a>"))
  /\ ~ In dquote (escapeContent (js "<a href=x>&</a>")).
Proof. apply escapeContent_never_markup. Defined.

Lemma escapeAttrNodeValue_quoteFree (value : jsstring) :
  quoteFree (escapeAttrNodeValue value) = true.
Proof.
  rewrite escapeAttrNodeValue_units. unfold quoteFree. rewrite forallb_flat_map.
  apply forallb_forall. intros u _. apply attrEscapeUnit_quoteFree.
Qed.

(** X7: an escaped attribute value holds no double quote, so in the text of
    an attribute whose value is neither a boolean nor a Date the only double
    quotes after the name are the two that enclose the value. *)
Theorem attribute_value_stays_quoted :
  (forall value, ~ In dquote (escapeAttrNodeValue value))
  /\ (forall (attributes : Attributes) name,
        match getProperty attributes name with
        | ADate _ | ABoolean _ => True
        | _ =>
            exists value,
              attributeToString attributes name
              = toKebabCase name ++ js "=" ++ [dquote] ++ value ++ [dquote]
              /\ ~ In dquote value
        end).
Proof.
  assert (H : forall value, ~ In dquote (escapeAttrNodeValue value)).
  { intros value Hin. pose proof (escapeAttrNodeValue_quoteFree value) as Hq.
    unfold quoteFree in Hq. rewrite forallb_forall in Hq.
    specialize (Hq _ Hin). discriminate Hq. }
  split; [exact H|].
  intros attributes name. unfold attributeToString.
  destruct (getProperty attributes name); try exact I;
    eexists; (split; [reflexivity|apply H]).
Qed.

Lemma attribute_value_stays_quoted_witness :
  ~ In dquote (escapeAttrNodeValue (js "a" ++ [dquote] ++ js " onclick=" ++ [dquote]))
  /\ exists value,
       attributeToString [(js "title", AString (js "a" ++ [dquote]))] (js "title")
       = toKebabCase (js "title") ++ js "=" ++ [dquote] ++ value ++ [dquote]
       /\ ~ In dquote value.
Proof.
  split; [apply (proj1 attribute_value_stays_quoted)|].
  exact (proj2 attribute_value_stays_quoted
           [(js "title", AString (js "a" ++ [dquote]))] (js "title")).
Defined.

Lemma flat_map_injective {A B} (f : A -> list B) :
  (forall a b r1 r2, f a ++ r1 = f b ++ r2 -> a = b) ->
  (forall a, f a <> []) ->
  forall l1 l2, flat_map f l1 = flat_map f l2 -> l1 = l2.
Proof.
  intros Hprefix Hne. induction l1 as [|a l1 IH]; intros [|b l2]; simpl; intros H.
  - reflexivity.
  - symmetry in H. apply app_eq_nil in H as [H _]. destruct (Hne _ H).
  - apply app_eq_nil in H as [H _]. destruct (Hne _ H).
  - pose proof (Hprefix _ _ _ _ H) as ->.
    apply app_inv_head in H. f_equal. apply IH. exact H.
Qed.

(** Two texts that start with different units, or different entities,
    are different. *)
Ltac units_differ H :=
  repeat match type of H with
         | context [js ?literal] =>
             let units := eval vm_compute in (js literal) in
             change (js literal) with units in H
         end;
  simpl in H;
  first [ discriminate H | injection H; intros; subst; congruence ].

Lemma contentEscapeUnit_prefix_free a b r1 r2 :
  contentEscapeUnit a ++ r1 = contentEscapeUnit b ++ r2 -> a = b.
Proof.
  unfold contentEscapeUnit, ampersand, lessThan, greaterThan, dquote.
  destruct (N.eqb_spec a 38) as [->|?]; [|destruct (N.eqb_spec a 60) as [->|?];
    [|destruct (N.eqb_spec a 62) as [->|?]; [|destruct (N.eqb_spec a 34) as [->|?]]]];
  (destruct (N.eqb_spec b 38) as [->|?]; [|destruct (N.eqb_spec b 60) as [->|?];
    [|destruct (N.eqb_spec b 62) as [->|?]; [|destruct (N.eqb_spec b 34) as [->|?]]]]);
  intros H; try reflexivity; units_differ H.
Qed.

Lemma attrEscapeUnit_prefix_free a b r1 r2 :
  attrEscapeUnit a ++ r1 = attrEscapeUnit b ++ r2 -> a = b.
Proof.
  unfold attrEscapeUnit, ampersand, dquote, nbsp.
  destruct (N.eqb_spec a 38) as [->|?]; [|destruct (N.eqb_spec a 34) as [->|?];
    [|destruct (N.eqb_spec a 160) as [->|?]]];
  (destruct (N.eqb_spec b 38) as [->|?]; [|destruct (N.eqb_spec b 34) as [->|?];
    [|destruct (N.eqb_spec b 160) as [->|?]]]);
  intros H; try reflexivity; units_differ H.
Qed.

Lemma contentEscapeUnit_nonempty a : contentEscapeUnit a <> [].
Proof.
  unfold contentEscapeUnit.
  destruct (a =? ampersand); [discriminate|].
  destruct (a =? lessThan); [discriminate|].
  destruct (a =? greaterThan); [discriminate|].
  destruct (a =? dquote); discriminate.
Qed.

Lemma attrEscapeUnit_nonempty a : attrEscapeUnit a <> [].
Proof.
  unfold attrEscapeUnit.
  destruct (a =? ampersand); [discriminate|].
  destruct (a =? dquote); [discriminate|].
  destruct (a =? nbsp); discriminate.
Qed.

(** X8: both escapes lose nothing: two texts have the same escaped form only
    when they are the same text. *)
Theorem escapes_injective (s t : jsstring) :
  bool_decide (escapeContent s = escapeContent t) = bool_decide (s = t)
  /\ bool_decide (escapeAttrNodeValue s = escapeAttrNodeValue t) = bool_decide (s = t).
Proof.
  split; apply bool_decide_ext; (split; [|intros ->; reflexivity]).
  - rewrite !escapeContent_units.
    apply flat_map_injective;
      [exact contentEscapeUnit_prefix_free|exact contentEscapeUnit_nonempty].
  - rewrite !escapeAttrNodeValue_units.
    apply flat_map_injective;
      [exact attrEscapeUnit_prefix_free|exact attrEscapeUnit_nonempty].
Qed.

Lemma flat_map_grows {A} (f : A -> list A) (p : A -> bool) (l : list A) :
  (forall a, p a = false -> f a = [a]) ->
  (forall a, p a = true -> (1 < length (f a))%nat) ->
  (length l + (if existsb p l then 1 else 0) <= length (flat_map f l))%nat.
Proof.
  intros Hid Hgrow. induction l as [|a l IH]; simpl; [lia|].
  rewrite length_app. destruct (p a) eqn:Hp; simpl.
  - specialize (Hgrow a Hp). destruct (existsb p l); lia.
  - rewrite (Hid a Hp). simpl. lia.
Qed.

Lemma flat_map_fixed {A} `{EqDecision (list A)} (f : A -> list A) (p : A -> bool)
    (l : list A) :
  (forall a, p a = false -> f a = [a]) ->
  (forall a, p a = true -> (1 < length (f a))%nat) ->
  bool_decide (flat_map f l = l) = negb (existsb p l).
Proof.
  intros Hid Hgrow. destruct (existsb p l) eqn:He; simpl.
  - apply bool_decide_eq_false. intros Heq.
    pose proof (flat_map_grows f p l Hid Hgrow) as Hlen.
    rewrite He, Heq in Hlen. lia.
  - apply bool_decide_eq_true.
    rewrite <- (flat_map_singleton l) at 2. apply flat_map_ext_in.
    intros a Ha. apply Hid.
    destruct (p a) eqn:Hp; [|reflexivity].
    assert (existsb p l = true) by (apply existsb_exists; eauto). congruence.
Qed.

(** X9: the escapes return a text unchanged exactly when it holds none of the
    characters they replace, and they never return a shorter text. *)
Theorem escapes_fixed_points (s : jsstring) :
  bool_decide (escapeContent s = s) = negb (existsb contentSpecial s)
  /\ bool_decide (escapeAttrNodeValue s = s) = negb (existsb attrSpecial s)
  /\ (length s <= length (escapeContent s))%nat
  /\ (length s <= length (escapeAttrNodeValue s))%nat.
Proof.
  assert (Hc1 : forall a, contentSpecial a = false -> contentEscapeUnit a = [a]).
  { intros a. unfold contentSpecial, contentEscapeUnit.
    destruct (a =? ampersand); [discriminate|].
    destruct (a =? lessThan); [discriminate|].
    destruct (a =? greaterThan); [discriminate|].
    destruct (a =? dquote); [discriminate|reflexivity]. }
  assert (Hc2 : forall a, contentSpecial a = true -> (1 < length (contentEscapeUnit a))%nat).
  { intros a. unfold contentSpecial, contentEscapeUnit.
    destruct (a =? ampersand); [simpl; lia|].
    destruct (a =? lessThan); [simpl; lia|].
    destruct (a =? greaterThan); [simpl; lia|].
    destruct (a =? dquote); [simpl; lia|discriminate]. }
  assert (Ha1 : forall a, attrSpecial a = false -> attrEscapeUnit a = [a]).
  { intros a. unfold attrSpecial, attrEscapeUnit.
    destruct (a =? ampersand); [discriminate|].
    destruct (a =? dquote); [discriminate|].
    destruct (a =? nbsp); [discriminate|reflexivity]. }
  assert (Ha2 : forall a, attrSpecial a = true -> (1 < length (attrEscapeUnit a))%nat).
  { intros a. unfold attrSpecial, attrEscapeUnit.
    destruct (a =? ampersand); [simpl; lia|].
    destruct (a =? dquote); [simpl; lia|].
    destruct (a =? nbsp); [simpl; lia|discriminate]. }
  rewrite escapeContent_units, escapeAttrNodeValue_units.
  split; [apply flat_map_fixed; assumption|].
  split; [apply flat_map_fixed; assumption|].
  pose proof (flat_map_grows _ _ s Hc1 Hc2).
  pose proof (flat_map_grows _ _ s Ha1 Ha2).
  split; lia.
Qed.

(** ** Attributes to text *)

Lemma nonEmpty_toKebabCase (name : jsstring) :
  nonEmpty (toKebabCase name) = nonEmpty name.
Proof.
  unfold nonEmpty. pose proof (toKebabCase_length_exact name) as Hlen.
  pose proof (filter_length_le (atWordBoundary name) (seq 0 (length name))) as Hle.
  rewrite length_seq in Hle.
  destruct (Nat.ltb_spec 0 (length name)), (Nat.ltb_spec 0 (length (toKebabCase name)));
    try reflexivity; lia.
Qed.

(** X10: the only attributes left out of the attribute block are the false
    booleans (and a true boolean under the empty name); an attribute whose
    value is undefined or null is kept, with the empty text as its value. *)
Theorem attribute_presence (attributes : Attributes) (name : jsstring) :
  nonEmpty (attributeToString attributes name)
  = match getProperty attributes name with
    | ABoolean b => b && nonEmpty name
    | _ => true
    end
  /\ match getProperty attributes name with
     | AUndefined | ANull =>
         attributeToString attributes name
         = toKebabCase name ++ js "=" ++ [dquote; dquote]
     | _ => True
     end.
Proof.
  unfold attributeToString.
  destruct (getProperty attributes name) as [text|v|d|[|]| |]; split;
    try exact I; try reflexivity;
    try (unfold nonEmpty; rewrite !length_app; simpl;
         apply Nat.ltb_lt; lia).
  simpl. apply nonEmpty_toKebabCase.
Qed.

(** ** Content flattener *)

Lemma reading_bind {A B} (r : option A) (k : A -> M B) (σ : store) :
  bind (reading r) k σ = match r with
                         | Some a => k a σ
                         | None => None
                         end.
Proof. unfold bind, reading. destruct r; reflexivity. Qed.

(** X11: nesting does not matter to the flattener: the array with given
    elements flattens as the sequence of those elements, a concatenation
    flattens to the concatenation of the two results, and an empty array
    among the contents adds nothing. *)
Theorem flattenContents_nesting (σ : store) (l empty : loc) (items more : list Content) :
  σ !! l = Some (ArrayObject (map shallow items)) ->
  σ !! empty = Some (ArrayObject []) ->
  flattenContents [Arr l items] σ = flattenContents items σ
  /\ flattenContents (items ++ more) σ
     = (let* first := flattenContents items in
        let* second := flattenContents more in
        ret (first ++ second)) σ
  /\ flattenContents (items ++ [Arr empty []]) σ = flattenContents items σ.
Proof.
  intros Hl Hempty. split; [|split].
  - unfold flattenContents at 1. simpl. unfold bind at 1. unfold bind at 1.
    unfold getObject. rewrite Hl. simpl.
    unfold bind at 1. rewrite bool_decide_true by reflexivity. unfold ret at 1.
    unfold flattenContents, bind, ret.
    destruct (forEachPush flattenContents_body items σ) as [[flat σ']|]; [|reflexivity].
    rewrite app_nil_r. reflexivity.
  - apply forEachPush_app.
  - unfold flattenContents. rewrite forEachPush_app. unfold bind at 1.
    destruct (forEachPush flattenContents_body items σ) as [[flat σ']|] eqn:Hitems;
      [|reflexivity].
    pose proof (flattenContents_reads _ _ _ _ Hitems) as ->.
    simpl. unfold bind, getObject. rewrite Hempty. simpl.
    unfold ret. rewrite app_nil_r. reflexivity.
Qed.

Lemma flattenContents_nesting_witness :
  [TextNode (js "<i>"); ArrayObject [VPrimitive (PString (js "a")); VObject 0%nat];
   ArrayObject []] !! 1%nat
  = Some (ArrayObject (map shallow [Prim (PString (js "a")); Ref 0%nat]))
  /\ [TextNode (js "<i>"); ArrayObject [VPrimitive (PString (js "a")); VObject 0%nat];
      ArrayObject []] !! 2%nat
     = Some (ArrayObject [])
  /\ flattenContents [Arr 1%nat [Prim (PString (js "a")); Ref 0%nat]]
       [TextNode (js "<i>"); ArrayObject [VPrimitive (PString (js "a")); VObject 0%nat];
        ArrayObject []]
     = flattenContents [Prim (PString (js "a")); Ref 0%nat]
         [TextNode (js "<i>"); ArrayObject [VPrimitive (PString (js "a")); VObject 0%nat];
          ArrayObject []].
Proof.
  split; [reflexivity|]. split; [reflexivity|].
  exact (proj1 (flattenContents_nesting
                  [TextNode (js "<i>");
                   ArrayObject [VPrimitive (PString (js "a")); VObject 0%nat];
                   ArrayObject []]
                  1%nat 2%nat [Prim (PString (js "a")); Ref 0%nat] []
                  eq_refl eq_refl)).
Defined.

Lemma flattensTo_safe (σ : store) leaf item :
  flattensTo σ leaf item -> safeItem σ item = true.
Proof.
  intros [l contents Hl|l tagName attributes children Hl|l props Hl Hown|p];
    cbn [safeItem].
  - unfold liveNode. rewrite Hl. reflexivity.
  - unfold liveNode. rewrite Hl. reflexivity.
  - apply escapeContent_markupFree.
  - apply escapeContent_markupFree.
Qed.

(** X12: whatever the contents, every element of the flattened sequence is a
    reference to a TextNode or RenderNode, or a text without angle bracket
    and double quote. *)
Theorem flattenContents_safe (σ : store) (contents : list Content) :
  forallb (flattenable σ) contents = true ->
  exists flat,
    flattenContents contents σ = Some (flat, σ)
    /\ forallb (safeItem σ) flat = true.
Proof.
  intros H. destruct (flattenContents_flattensTo _ _ H) as (flat & Hflat & Hleaves).
  exists flat. split; [exact Hflat|]. clear Hflat.
  induction Hleaves as [|leaf item leaves' flat' Hleaf _ IH]; [reflexivity|].
  cbn [forallb]. rewrite (flattensTo_safe _ _ _ Hleaf). exact IH.
Qed.

Lemma flattenContents_safe_witness :
  forallb (flattenable [TextNode (js "<i>"); AttributesObject [];
                        ArrayObject [VObject 0%nat; VObject 1%nat]])
    [Prim (PString (js "a<b")); Arr 2%nat [Ref 0%nat; Ref 1%nat]] = true
  /\ exists flat,
       flattenContents [Prim (PString (js "a<b")); Arr 2%nat [Ref 0%nat; Ref 1%nat]]
         [TextNode (js "<i>"); AttributesObject [];
          ArrayObject [VObject 0%nat; VObject 1%nat]]
       = Some (flat, [TextNode (js "<i>"); AttributesObject [];
                      ArrayObject [VObject 0%nat; VObject 1%nat]])
       /\ forallb (safeItem [TextNode (js "<i>"); AttributesObject [];
                             ArrayObject [VObject 0%nat; VObject 1%nat]]) flat = true.
Proof.
  split; [reflexivity|]. apply flattenContents_safe. reflexivity.
Defined.

Lemma leafResult_toContent (σ : store) (item : ContentType) :
  match item with
  | CNode l => liveNode σ l
  | CString _ => true
  end = true ->
  leafResult σ (toContent item) = Some (flattenedAgain item).
Proof.
  destruct item as [l|s]; simpl; [|reflexivity].
  unfold liveNode.
  destruct (σ !! l) as [[contents|tagName attributes children|props|elements]|];
    first [discriminate | reflexivity].
Qed.

Lemma liveNode_flattenable (σ : store) (flat : list ContentType) :
  forallb (fun item => match item with
                       | CNode l => liveNode σ l
                       | CString _ => true
                       end) flat = true ->
  forallb (flattenable σ) (map toContent flat) = true.
Proof.
  induction flat as [|[l|t] flat IH]; simpl; [reflexivity| |exact IH].
  intros H. apply andb_true_iff in H as [Hl Hrest]. rewrite (IH Hrest).
  unfold liveNode in Hl.
  destruct (σ !! l) as [[contents|tagName attributes children|props|elements]|];
    first [discriminate | reflexivity].
Qed.

(** X13: flattening is not idempotent: a flattened sequence that is flattened
    again, as when a handler passes the contents it received to
    createElement, keeps its node references but has its texts escaped a
    second time. *)
Theorem flattenContents_again (σ : store) (flat : list ContentType) :
  forallb (fun item => match item with
                       | CNode l => liveNode σ l
                       | CString _ => true
                       end) flat = true ->
  flattenContents (map toContent flat) σ = Some (map flattenedAgain flat, σ).
Proof.
  intros H. rewrite (flattenContents_leaves _ _ (liveNode_flattenable _ _ H)).
  assert (Hleaves : flat_map leaves (map toContent flat) = map toContent flat).
  { clear H. induction flat as [|[l|s] flat IH]; simpl; [reflexivity| |];
      f_equal; exact IH. }
  rewrite Hleaves.
  assert (HmapM : mapM (leafResult σ) (map toContent flat)
                  = Some (map flattenedAgain flat)).
  { clear Hleaves. induction flat as [|item flat IH]; [reflexivity|].
    simpl in H. apply andb_true_iff in H as [Hitem Hrest].
    change (mapM (leafResult σ) (map toContent (item :: flat)))
      with (y ← leafResult σ (toContent item);
            k ← mapM (leafResult σ) (map toContent flat); Some (y :: k)).
    rewrite (leafResult_toContent _ _ Hitem), (IH Hrest). reflexivity. }
  rewrite HmapM. reflexivity.
Qed.

Lemma flattenContents_again_witness :
  forallb (fun item => match item with
                       | CNode l => liveNode [TextNode (js "<i>")] l
                       | CString _ => true
                       end)
    [CString (js "a&amp;b"); CNode 0%nat] = true
  /\ flattenContents (map toContent [CString (js "a&amp;b"); CNode 0%nat])
       [TextNode (js "<i>")]
     = Some (map flattenedAgain [CString (js "a&amp;b"); CNode 0%nat],
             [TextNode (js "<i>")]).
Proof.
  split; [reflexivity|]. apply flattenContents_again. reflexivity.
Defined.

(** ** Tree builder *)

Lemma lookups_flattenable (σ σ' : store) (content : Content) :
  (forall l o, σ !! l = Some o ->
               exists o', σ' !! l = Some o'
                          /\ match o with
                             | AttributesObject props =>
                                 exists props', o' = AttributesObject props'
                                                /\ ownToString props' = ownToString props
                             | _ => o' = o
                             end) ->
  flattenable σ content = true -> flattenable σ' content = true.
Proof.
  intros Hσ.
  induction content as [l|l items IH|p] using Content_nested_ind; simpl; [| |auto].
  - destruct (σ !! l) as [o|] eqn:Hl; [|discriminate].
    destruct (Hσ _ _ Hl) as (o' & -> & Ho').
    destruct o as [contents|tagName attributes children|props|elements];
      try (subst o'; auto).
    destruct Ho' as (props' & -> & ->). auto.
  - destruct (σ !! l) as [o|] eqn:Hl; [|discriminate].
    destruct (Hσ _ _ Hl) as (o' & -> & Ho').
    destruct o as [contents|tagName attributes children|props|elements];
      try discriminate.
    subst o'. intros H. apply andb_true_iff in H as [-> H]. simpl.
    clear Hl. induction IH as [|c items Hc _ IHitems]; simpl in *; [reflexivity|].
    apply andb_true_iff in H as [H1 H2].
    rewrite (Hc H1), (IHitems H2). reflexivity.
Qed.

Lemma ownToString_deleteProperty (props : Attributes) :
  ownToString (deleteProperty props dangerousInnerHtml) = ownToString props.
Proof.
  unfold ownToString, deleteProperty.
  induction props as [|[k v] props IH]; simpl; [reflexivity|].
  destruct (bool_decide_reflect (k = dangerousInnerHtml)) as [->|Hk]; simpl.
  - rewrite IH. reflexivity.
  - rewrite IH. reflexivity.
Qed.

Lemma hatchStore_flattenable (σ more : store) a props (contents : list Content) :
  σ !! a = Some (AttributesObject props) ->
  forallb (flattenable σ) contents = true ->
  forallb (flattenable (hatchStore σ a props ++ more)) contents = true.
Proof.
  intros Ha H. rewrite forallb_forall in *. intros c Hc.
  eapply lookups_flattenable; [|apply H; exact Hc].
  intros l o Hl. destruct (decide (l = a)) as [->|Hne].
  - rewrite Ha in Hl. injection Hl as <-.
    eexists. split.
    + apply lookup_app_l_Some. exact (hatchStore_lookup_attributes _ _ _ Ha).
    + eexists. split; [reflexivity|apply ownToString_deleteProperty].
  - exists o. split.
    + apply lookup_app_l_Some. apply hatchStore_lookup_other; assumption.
    + destruct o; eauto.
Qed.

(** X14: building an element without taking the escape hatch never changes how
    an existing node renders: whatever text a node rendered to before the
    call, it renders to afterwards. *)
Theorem rendering_survives_createElement (σ : store) name attributes rawContents :
  noHatch σ attributes ->
  forallb (flattenable σ) rawContents = true ->
  exists node σ',
    createElement (TagName name) attributes rawContents σ = Some (node, σ')
    /\ forall l n s m,
        toString n σ l = Some s -> (n <= m)%nat -> toString m σ' l = Some s.
Proof.
  intros Hno Hraw.
  destruct (flattenContents_returns _ _ Hraw) as (flat & Hflat & _).
  exists (length σ), (σ ++ [RenderNode (toKebabCase name) attributes flat]).
  split.
  - rewrite (createElement_plain _ (TagName name) _ _ _ Hno Hflat). reflexivity.
  - intros l n s m H Hle. eapply toString_stable; eassumption.
Qed.

Lemma rendering_survives_createElement_witness :
  noHatch [TextNode (js "<b>")] None
  /\ forallb (flattenable [TextNode (js "<b>")]) [Ref 0%nat] = true
  /\ exists node σ',
       createElement (TagName (js "p")) None [Ref 0%nat] [TextNode (js "<b>")]
       = Some (node, σ')
       /\ forall l n s m,
           toString n [TextNode (js "<b>")] l = Some s -> (n <= m)%nat ->
           toString m σ' l = Some s.
Proof.
  split; [exact I|]. split; [reflexivity|].
  apply rendering_survives_createElement; [exact I|reflexivity].
Defined.

(** X15: the text of a new element is its opening tag with the attribute
    block, the texts its flattened children rendered to before the call, in
    order and as they are, and its closing tag (unless it is a void element
    without children). *)
Theorem createElement_renders_children (σ : store) name attributes rawContents
    flat attrs texts fuel :
  noHatch σ attributes ->
  flattenContents rawContents σ = Some (flat, σ) ->
  attributesToString σ attributes = Some attrs ->
  mapM (childText σ fuel) flat = Some texts ->
  flat <> [] \/ isVoidElement (toKebabCase name) = false ->
  let σ' := σ ++ [RenderNode (toKebabCase name) attributes flat] in
  createElement (TagName name) attributes rawContents σ = Some (length σ, σ')
  /\ toString (S fuel) σ' (length σ)
     = Some (js "<" ++ toKebabCase name ++ attrs ++ js ">" ++ concat texts
             ++ js "</" ++ toKebabCase name ++ js ">").
Proof.
  intros Hno Hflat Hattrs Htexts Hopen σ'. split.
  - rewrite (createElement_plain _ (TagName name) _ _ _ Hno Hflat). reflexivity.
  - rewrite (toString_RenderNode σ' (length σ) (toKebabCase name) attributes flat)
      by (apply list_lookup_middle; reflexivity).
    apply RenderNode_toString_open.
    + exact Hopen.
    + apply attributesToString_extend. exact Hattrs.
    + eapply mapM_option_mono; [|exact Htexts].
      intros [l|t] y; simpl; [|auto].
      intros H. eapply toString_stable; [exact H|lia].
Qed.

Lemma createElement_renders_children_witness :
  noHatch [TextNode (js "<b>x</b>")] None
  /\ flattenContents [Prim (PString (js "a<")); Ref 0%nat] [TextNode (js "<b>x</b>")]
     = Some ([CString (js "a&lt;"); CNode 0%nat], [TextNode (js "<b>x</b>")])
  /\ mapM (childText [TextNode (js "<b>x</b>")] 1) [CString (js "a&lt;"); CNode 0%nat]
     = Some [js "a&lt;"; js "<b>x</b>"]
  /\ toString 2
       ([TextNode (js "<b>x</b>")]
        ++ [RenderNode (toKebabCase (js "p")) None [CString (js "a&lt;"); CNode 0%nat]])
       1
     = Some (js "<" ++ toKebabCase (js "p") ++ [] ++ js ">"
             ++ concat [js "a&lt;"; js "<b>x</b>"]
             ++ js "</" ++ toKebabCase (js "p") ++ js ">").
Proof.
  split; [exact I|]. split; [reflexivity|]. split; [reflexivity|].
  apply (createElement_renders_children [TextNode (js "<b>x</b>")] (js "p") None
           [Prim (PString (js "a<")); Ref 0%nat]
           [CString (js "a&lt;"); CNode 0%nat] [] [js "a&lt;"; js "<b>x</b>"] 1%nat
           I eq_refl eq_refl eq_refl).
  left. discriminate.
Defined.

Lemma flattenContents_primitives (σ : store) (values : list Primitive) :
  flattenContents (map Prim values) σ
  = Some (map (fun p => CString (escapeContent (Primitive_toString p))) values, σ).
Proof.
  rewrite flattenContents_leaves
    by (apply forallb_forall; intros c Hc;
        apply in_map_iff in Hc as (p & <- & _); reflexivity).
  replace (mapM (leafResult σ) (flat_map leaves (map Prim values)))
    with (Some (map (fun p => CString (escapeContent (Primitive_toString p))) values));
    [reflexivity|].
  induction values as [|p values IH]; [reflexivity|].
  change (flat_map leaves (map Prim (p :: values)))
    with (Prim p :: flat_map leaves (map Prim values)).
  change (mapM (leafResult σ) (Prim p :: flat_map leaves (map Prim values)))
    with (y ← leafResult σ (Prim p);
          k ← mapM (leafResult σ) (flat_map leaves (map Prim values)); Some (y :: k)).
  rewrite <- IH. reflexivity.
Qed.

Lemma childText_strings (σ : store) fuel (texts : list jsstring) :
  mapM (childText σ fuel) (map CString texts) = Some texts.
Proof.
  induction texts as [|t texts IH]; [reflexivity|].
  change (mapM (childText σ fuel) (map CString (t :: texts)))
    with (y ← childText σ fuel (CString t);
          k ← mapM (childText σ fuel) (map CString texts); Some (y :: k)).
  rewrite IH. reflexivity.
Qed.

Lemma markupFree_concat (texts : list jsstring) :
  forallb markupFree texts = true -> markupFree (concat texts) = true.
Proof.
  induction texts as [|t texts IH]; simpl; [reflexivity|].
  intros H. apply andb_true_iff in H as [H1 H2].
  unfold markupFree in *. rewrite forallb_app, H1. apply IH. exact H2.
Qed.

(** X16: an element built from primitive children only (strings, numbers,
    booleans, null, undefined) and no attributes renders as its tags around
    the escaped texts of the children, and no angle bracket or double quote
    occurs between the tags. *)
Theorem createElement_text_children (σ : store) name (values : list Primitive) fuel :
  let tag := toKebabCase name in
  let texts := map (fun p => escapeContent (Primitive_toString p)) values in
  let σ' := σ ++ [RenderNode tag None (map CString texts)] in
  createElement (TagName name) None (map Prim values) σ = Some (length σ, σ')
  /\ markupFree (concat texts) = true
  /\ (values <> [] \/ isVoidElement tag = false ->
      toString (S fuel) σ' (length σ)
      = Some (js "<" ++ tag ++ js ">" ++ concat texts ++ js "</" ++ tag ++ js ">")).
Proof.
  intros tag texts σ'.
  assert (Hflat : flattenContents (map Prim values) σ = Some (map CString texts, σ)).
  { rewrite flattenContents_primitives. unfold texts. rewrite map_map. reflexivity. }
  split; [|split].
  - rewrite (createElement_plain _ (TagName name) None _ _ I Hflat). reflexivity.
  - apply markupFree_concat. unfold texts. apply forallb_forall.
    intros t Ht. apply in_map_iff in Ht as (p & <- & _).
    apply escapeContent_markupFree.
  - intros Hopen.
    rewrite (toString_RenderNode σ' (length σ) tag None (map CString texts))
      by (apply list_lookup_middle; reflexivity).
    rewrite (RenderNode_toString_open σ' fuel tag None (map CString texts) [] texts).
    + reflexivity.
    + destruct Hopen as [Hne|Hvoid]; [left|right; exact Hvoid].
      unfold texts. destruct values; [congruence|discriminate].
    + reflexivity.
    + apply childText_strings.
Qed.

Lemma createElement_text_children_witness :
  ([PString (js "1 < 2"); PNumber (js "3"); PNull] <> []
   \/ isVoidElement (toKebabCase (js "p")) = false)
  /\ toString 1
       ([] ++ [RenderNode (toKebabCase (js "p")) None
                 (map CString
                    (map (fun p => escapeContent (Primitive_toString p))
                       [PString (js "1 < 2"); PNumber (js "3"); PNull]))])
       (length (@nil object))
     = Some (js "<" ++ toKebabCase (js "p") ++ js ">"
             ++ concat (map (fun p => escapeContent (Primitive_toString p))
                          [PString (js "1 < 2"); PNumber (js "3"); PNull])
             ++ js "</" ++ toKebabCase (js "p") ++ js ">").
Proof.
  assert (Hopen : [PString (js "1 < 2"); PNumber (js "3"); PNull] <> []
                  \/ isVoidElement (toKebabCase (js "p")) = false)
    by (left; discriminate).
  split; [exact Hopen|].
  exact (proj2 (proj2 (createElement_text_children [] (js "p")
                         [PString (js "1 < 2"); PNumber (js "3"); PNull] 0%nat))
           Hopen).
Defined.

Lemma voidElements_kebab (tagName : jsstring) :
  In tagName voidElements -> toKebabCase tagName = tagName.
Proof.
  intros H. apply toKebabCase_fixed_no_boundary.
  unfold voidElements in H. simpl in H.
  repeat (destruct H as [<-|H]; [reflexivity|]). destruct H.
Qed.

(** X17: every void element name is already in kebab case, so createElement
    under such a name and without children constructs an element that
    renders as the opening tag alone, with its attribute block. *)
Theorem void_names_self_close (σ : store) tagName attributes attrs fuel :
  In tagName voidElements ->
  noHatch σ attributes ->
  attributesToString σ attributes = Some attrs ->
  toKebabCase tagName = tagName
  /\ createElement (TagName tagName) attributes [] σ
     = Some (length σ, σ ++ [RenderNode tagName attributes []])
  /\ toString (S fuel) (σ ++ [RenderNode tagName attributes []]) (length σ)
     = Some (js "<" ++ tagName ++ attrs ++ js ">").
Proof.
  intros Hvoid Hno Hattrs.
  pose proof (voidElements_kebab _ Hvoid) as Hk.
  split; [exact Hk|]. split.
  - rewrite (createElement_plain σ (TagName tagName) attributes [] [] Hno eq_refl).
    simpl. rewrite Hk. reflexivity.
  - rewrite (toString_RenderNode _ (length σ) tagName attributes [])
      by (apply list_lookup_middle; reflexivity).
    apply RenderNode_toString_childless.
    + apply isVoidElement_In. exact Hvoid.
    + apply attributesToString_extend. exact Hattrs.
Qed.

Lemma void_names_self_close_witness :
  In (js "br") voidElements
  /\ noHatch [] None
  /\ attributesToString [] None = Some []
  /\ createElement (TagName (js "br")) None [] []
     = Some (0%nat, [RenderNode (js "br") None []])
  /\ toString 1 [RenderNode (js "br") None []] 0 = Some (js "<br>").
Proof.
  assert (Hvoid : In (js "br") voidElements) by (apply isVoidElement_In; reflexivity).
  split; [exact Hvoid|]. split; [exact I|]. split; [reflexivity|].
  exact (proj2 (void_names_self_close [] (js "br") None [] 0%nat Hvoid I eq_refl)).
Defined.

(** X18: the escape hatch works once per attributes object: the call that
    takes it deletes the key, so a later call with the same attributes
    object keeps and flattens the children it is given. *)
Theorem escape_hatch_consumed (σ : store) a props name1 rawContents1 rawContents2 :
  σ !! a = Some (AttributesObject props) ->
  truthy (getProperty props dangerousInnerHtml) = true ->
  forallb (flattenable σ) rawContents2 = true ->
  exists node1 σ1 flat2,
    createElement (TagName name1) (Some a) rawContents1 σ = Some (node1, σ1)
    /\ flattenContents rawContents2 σ1 = Some (flat2, σ1)
    /\ Forall2 (flattensTo σ1) (flat_map leaves rawContents2) flat2
    /\ forall name2,
        createElement (TagName name2) (Some a) rawContents2 σ1
        = Some (length σ1, σ1 ++ [RenderNode (toKebabCase name2) (Some a) flat2]).
Proof.
  intros Ha Htruthy Hraw.
  set (σ1 := hatchStore σ a props
             ++ [RenderNode (toKebabCase name1) (Some a) [CNode (length σ)]]).
  assert (Hlen : (length σ <= length σ1)%nat).
  { unfold σ1. rewrite length_app, hatchStore_length. lia. }
  assert (Ha1 : σ1 !! a
                = Some (AttributesObject (deleteProperty props dangerousInnerHtml))).
  { unfold σ1. apply lookup_app_l_Some. apply (hatchStore_lookup_attributes _ _ _ Ha). }
  assert (Hno : noHatch σ1 (Some a)).
  { eexists. split; [exact Ha1|]. rewrite getProperty_deleteProperty. reflexivity. }
  destruct (flattenContents_flattensTo σ1 rawContents2
              (hatchStore_flattenable _ _ _ _ _ Ha Hraw)) as (flat2 & Hflat2 & Hleaves).
  exists (length (hatchStore σ a props)), σ1, flat2.
  split; [|split; [exact Hflat2|split; [exact Hleaves|]]].
  - rewrite (createElement_hatch _ _ _ Ha (TagName name1) _ Htruthy). reflexivity.
  - intros name2.
    rewrite (createElement_plain _ (TagName name2) _ _ _ Hno Hflat2). reflexivity.
Qed.

Lemma escape_hatch_consumed_witness :
  [AttributesObject [(dangerousInnerHtml, AString (js "<b>x</b>"))]] !! 0%nat
  = Some (AttributesObject [(dangerousInnerHtml, AString (js "<b>x</b>"))])
  /\ truthy (getProperty [(dangerousInnerHtml, AString (js "<b>x</b>"))]
               dangerousInnerHtml) = true
  /\ forallb (flattenable [AttributesObject [(dangerousInnerHtml, AString (js "<b>x</b>"))]])
       [Prim (PString (js "y"))] = true
  /\ exists node1 σ1 flat2,
       createElement (TagName (js "div")) (Some 0%nat) []
         [AttributesObject [(dangerousInnerHtml, AString (js "<b>x</b>"))]]
       = Some (node1, σ1)
       /\ flattenContents [Prim (PString (js "y"))] σ1 = Some (flat2, σ1)
       /\ Forall2 (flattensTo σ1) (flat_map leaves [Prim (PString (js "y"))]) flat2
       /\ forall name2,
           createElement (TagName name2) (Some 0%nat) [Prim (PString (js "y"))] σ1
           = Some (length σ1,
                   σ1 ++ [RenderNode (toKebabCase name2) (Some 0%nat) flat2]).
Proof.
  split; [reflexivity|]. split; [reflexivity|]. split; [reflexivity|].
  apply (escape_hatch_consumed
           [AttributesObject [(dangerousInnerHtml, AString (js "<b>x</b>"))]] 0%nat
           [(dangerousInnerHtml, AString (js "<b>x</b>"))] (js "div") []
           [Prim (PString (js "y"))]); reflexivity.
Defined.
